(** * LogsGonstr: the bounded security-event log, the request middleware
      and the token-gated status endpoint of the portfolio site.

    A shallow embedding of
      - src/utils/security-logger.ts   (class LogsGonstrSecurity),
      - src/middleware.ts              (onRequest),
      - the status endpoint GET /api/security-status  (GET),
    together with the few platform operations they call (Array.prototype.slice,
    the [||] operator on strings, Date, the Fetch [Headers] list).

    Effects are explicit: every operation is a function of a [World] that holds
    the system clock, the console and the private [logs] array of the single
    logger instance, and returns a completion (normal or thrown) with the next
    world. *)

From Stdlib Require Import Ascii ZArith Lia.
From stdpp Require Import gmap strings list fin_maps pretty.

Set Warnings "-register-all".

(* ===================================================================== *)
(** ** JavaScript values and operators used by the sources                *)
(* ===================================================================== *)

Module JS.

(** The values that travel through [details: Record<string, any>] and through
    the object handed to [JSON.stringify]: JSON documents.  Numbers are the
    integers the sources produce (counts). *)
Inductive Value :=
  | Null
  | Bool (b : bool)
  | Num (n : Z)
  | Str (s : string)
  | Arr (items : list Value)
  | Obj (fields : gmap string Value).

(** Truthiness of a [string | null | undefined]: defined and not empty. *)
Definition truthy (s : option string) : option string :=
  match s with
  | Some x => if decide (x = "") then None else Some x
  | None => None
  end.

(** [a || b] where [b] may itself be undefined. *)
Definition or_opt (a b : option string) : option string :=
  match truthy a with
  | Some x => Some x
  | None => b
  end.

(** [a || "literal"]. *)
Definition or_str (a : option string) (b : string) : string :=
  default b (truthy a).

(** [arr.slice(start)] for an integral [start] (ECMA-262 23.1.3.28 with [end]
    undefined): a negative [start] counts from the end, and [-0] is [0]. *)
Definition slice_from {A} (start : Z) (arr : list A) : list A :=
  let len := Z.of_nat (length arr) in
  let k := if (start <? 0)%Z then Z.max (len + start) 0 else Z.min start len in
  drop (Z.to_nat k) arr.

(** [s.split(',')[0]]: the text before the first comma. *)
Fixpoint split_comma_head (s : string) : string :=
  match s with
  | EmptyString => EmptyString
  | String c rest =>
      if decide (c = ","%char) then EmptyString else String c (split_comma_head rest)
  end.

(** *** Date *)

Fixpoint zeros (k : nat) : string :=
  match k with
  | O => ""
  | S k' => String "0"%char (zeros k')
  end.

(** [String(n).padStart(width, "0")] for [0 <= n]. *)
Definition pad (width : nat) (n : Z) : string :=
  let digits := pretty n in
  zeros (width - String.length digits) +:+ digits.

(** Days since 1970-01-01 to the proleptic Gregorian (year, month, day). *)
Definition civil_from_days (days : Z) : Z * Z * Z :=
  let z := (days + 719468)%Z in
  let era := (z / 146097)%Z in
  let doe := (z - era * 146097)%Z in
  let yoe := ((doe - doe / 1460 + doe / 36524 - doe / 146096) / 365)%Z in
  let doy := (doe - (365 * yoe + yoe / 4 - yoe / 100))%Z in
  let mp := ((5 * doy + 2) / 153)%Z in
  let d := (doy - (153 * mp + 2) / 5 + 1)%Z in
  let m := if (mp <? 10)%Z then (mp + 3)%Z else (mp - 9)%Z in
  let y := (yoe + era * 400 + (if (m <=? 2)%Z then 1 else 0))%Z in
  (y, m, d).

Definition iso_year (y : Z) : string :=
  if ((0 <=? y) && (y <=? 9999))%Z then pad 4 y
  else (if (y <? 0)%Z then "-" else "+") +:+ pad 6 (Z.abs y).

(** [new Date(t).toISOString()] for a time value [t] in milliseconds since the
    epoch: [YYYY-MM-DDTHH:mm:ss.sssZ]. *)
Definition toISOString (t : Z) : string :=
  let day := (t / 86400000)%Z in
  let ms := (t mod 86400000)%Z in
  let '(y, m, d) := civil_from_days day in
  iso_year y +:+ "-" +:+ pad 2 m +:+ "-" +:+ pad 2 d +:+ "T" +:+
  pad 2 (ms / 3600000) +:+ ":" +:+ pad 2 (ms / 60000 mod 60) +:+ ":" +:+
  pad 2 (ms / 1000 mod 60) +:+ "." +:+ pad 3 (ms mod 1000) +:+ "Z".

End JS.

(* ===================================================================== *)
(** ** The Fetch [Headers] list                                           *)
(* ===================================================================== *)

Module Headers.

(** A header list: (name, value) pairs in insertion order.  Names are stored
    lower-cased, which is how [Headers] matches them. *)
Abbreviation t := (list (string * string)).

Definition lower_ascii (c : ascii) : ascii :=
  let n := N_of_ascii c in
  if ((65 <=? n) && (n <=? 90))%N then ascii_of_N (n + 32) else c.

Fixpoint lower (s : string) : string :=
  match s with
  | EmptyString => EmptyString
  | String c rest => String (lower_ascii c) (lower rest)
  end.

Definition named (name : string) (h : string * string) : Prop := h.1 = lower name.

#[global] Instance named_dec name h : Decision (named name h).
Proof. unfold named. apply _. Defined.

(** [headers.get(name)]: the values of the headers called [name], joined by
    a comma and a space; [null] when there is none. *)
Definition get (name : string) (hs : t) : option string :=
  match filter (named name) hs with
  | [] => None
  | found => Some (String.concat ", " (found.*2))
  end.

(** [headers.append(name, value)], for a value without white space at its
    ends: the real list strips such white space when it stores a value, here
    the value is stored as given.  The values the sources store are literals
    and runs of digits. *)
Definition append (name value : string) (hs : t) : t :=
  hs ++ [(lower name, value)].

(** [headers.set(name, value)]: the first header called [name] takes the
    value and the others are removed; without one, the header is appended. *)
Fixpoint set (name value : string) (hs : t) : t :=
  match hs with
  | [] => [(lower name, value)]
  | h :: rest =>
      if decide (named name h)
      then (lower name, value) :: filter (λ h', ¬ named name h') rest
      else h :: set name value rest
  end.

(** [new Headers({ k1: v1, ... })]. *)
Definition of_record (init : list (string * string)) : t :=
  foldl (λ hs kv, append kv.1 kv.2 hs) [] init.

End Headers.

(* ===================================================================== *)
(** ** Data model (security-logger.ts, lines 5-13) and the world           *)
(* ===================================================================== *)

(** [SecurityLog['level']]. *)
Inductive Level := INFO | WARN | ERROR | CRITICAL.

#[global] Instance Level_eq_dec : EqDecision Level.
Proof. solve_decision. Defined.

(** The string a level is at run time; it is the key of the report's summary
    and the tag of the console line. *)
Definition level_name (l : Level) : string :=
  match l with
  | INFO => "INFO"
  | WARN => "WARN"
  | ERROR => "ERROR"
  | CRITICAL => "CRITICAL"
  end.

Record SecurityLog := mkSecurityLog {
  timestamp : string;
  level : Level;
  event : string;
  details : gmap string JS.Value;
  ip : option string;
  userAgent : option string;
  endpoint : option string
}.

(** A parsed [URL]: its path and its query parameters in order. *)
Record URL := mkURL {
  pathname : string;
  searchParams : list (string * string)
}.

(** [url.searchParams.get(name)]: the first value given to [name]. *)
Definition searchParams_get (name : string) (u : URL) : option string :=
  snd <$> head (filter (λ kv, kv.1 = name) (searchParams u)).

Record Request := mkRequest {
  method : string;
  request_url : URL;
  request_headers : Headers.t
}.

(** The part of Astro's [APIContext] the sources read.  [clientAddress] is
    taken as available, as it is under the server adapter of astro.config.mjs. *)
Record APIContext := mkAPIContext {
  request : Request;
  url : URL;
  clientAddress : string
}.

(** A response body.  [JSONText doc] is the text [JSON.stringify(doc, null, 2)],
    kept as the document it serialises. *)
Inductive Body :=
  | Text (s : string)
  | JSONText (doc : JS.Value).

(** The guard of the header list of a response: a response built with
    [new Response] has the guard "response" and its headers can be changed;
    [Response.redirect()], [Response.error()] and the response of a [fetch]
    have the guard "immutable". *)
Inductive HeadersGuard := guard_response | guard_immutable.

Record Response := mkResponse {
  status : Z;
  body : Body;
  headers : Headers.t;
  headers_guard : HeadersGuard
}.

Definition with_headers (hs : Headers.t) (r : Response) : Response :=
  {| status := status r; body := body r; headers := hs;
     headers_guard := headers_guard r |}.

(** The response with the header [name] set to [value] in its list: what a
    [response.headers.set(name, value)] that does not throw leaves. *)
Definition put_header (name value : string) (r : Response) : Response :=
  with_headers (Headers.set name value (headers r)) r.

(** The console: which method was called, its first argument, and the
    objects passed after it. *)
Inductive ConsoleMethod := console_log | console_warn | console_error.

Inductive ConsoleArg :=
  | LogArg (entry : SecurityLog)
  | ErrorArg (error : string).

Record ConsoleCall := mkConsoleCall {
  console_method : ConsoleMethod;
  message : string;
  arguments : list ConsoleArg
}.

(** The constants vite's [define] replaces at build time (astro.config.mjs)
    and whether a global [window] exists (it does in a browser only). *)
Record Globals := mkGlobals {
  __VERSION__ : string;
  __BUILD_TIME__ : string;
  window_defined : bool
}.

(** astro.config.mjs, [vite.define], for a build run at time [build_ms]. *)
Definition astro_define (build_ms : Z) (window : bool) : Globals :=
  {| __VERSION__ := "1.0.0-LogsGonstr";
     __BUILD_TIME__ := JS.toISOString build_ms;
     window_defined := window |}.

(** The process: [clock k] is the k-th reading of the system clock (ms since
    the epoch), [reads] counts the readings taken, [console] is what has been
    written, and [logs] is the private array of the one
    [LogsGonstrSecurity] instance. *)
Record World := mkWorld {
  globals : Globals;
  clock : nat → Z;
  reads : nat;
  console : list ConsoleCall;
  logs : list SecurityLog
}.

Definition with_reads (n : nat) (w : World) : World :=
  {| globals := globals w; clock := clock w; reads := n;
     console := console w; logs := logs w |}.

Definition with_console (c : list ConsoleCall) (w : World) : World :=
  {| globals := globals w; clock := clock w; reads := reads w;
     console := c; logs := logs w |}.

Definition with_logs (l : list SecurityLog) (w : World) : World :=
  {| globals := globals w; clock := clock w; reads := reads w;
     console := console w; logs := l |}.

(** The world when the module security-logger.ts has been loaded:
    [getInstance()] has built the instance, with [logs = []]. *)
Definition initial_world (g : Globals) (clk : nat → Z) : World :=
  {| globals := g; clock := clk; reads := 0; console := []; logs := [] |}.

(* ===================================================================== *)
(** ** Effects: state and exceptions                                       *)
(* ===================================================================== *)

(** How a call ends: with a value, or with a thrown value (kept as the
    string [String(error)] it prints as). *)
Inductive Completion (A : Type) :=
  | Normal (a : A)
  | Throw (error : string).
Arguments Normal {A} a.
Arguments Throw {A} error.

#[global] Instance Completion_fmap : FMap Completion := λ A B f c,
  match c with
  | Normal a => Normal (f a)
  | Throw e => Throw e
  end.

Definition Eff (A : Type) : Type := World → Completion A * World.

#[global] Instance Eff_ret : MRet Eff := λ A a w, (Normal a, w).

#[global] Instance Eff_bind : MBind Eff := λ A B k m w,
  match m w with
  | (Normal a, w') => k a w'
  | (Throw e, w') => (Throw e, w')
  end.

Definition throw {A} (e : string) : Eff A := λ w, (Throw e, w).

(** [try { body } catch (error) { handler }]. *)
Definition try_catch {A} (body : Eff A) (handler : string → Eff A) : Eff A := λ w,
  match body w with
  | (Normal a, w') => (Normal a, w')
  | (Throw e, w') => handler e w'
  end.

(** The promise an [async] function returns.  None of the bodies modelled here
    suspends, so the promise is settled when the call returns; a throw inside
    the body rejects the promise and does not reach the caller. *)
Inductive Promise (A : Type) :=
  | Resolved (a : A)
  | Rejected (error : string).
Arguments Resolved {A} a.
Arguments Rejected {A} error.

Definition async {A} (body : Eff A) : Eff (Promise A) := λ w,
  match body w with
  | (Normal a, w') => (Normal (Resolved a), w')
  | (Throw e, w') => (Normal (Rejected e), w')
  end.

Definition read {A} (f : World → A) : Eff A := λ w, (Normal (f w), w).

Definition modify (f : World → World) : Eff unit := λ w, (Normal tt, f w).

(** [Date.now()]. *)
Definition Date_now : Eff Z := λ w,
  (Normal (clock w (reads w)), with_reads (S (reads w)) w).

(** [new Date().toISOString()]. *)
Definition Date_toISOString : Eff string :=
  t ← Date_now; mret (JS.toISOString t).

(** [console.log / console.warn / console.error (message, ...arguments)]. *)
Definition console_call (m : ConsoleMethod) (msg : string) (args : list ConsoleArg)
  : Eff unit :=
  modify (λ w, with_console (console w ++ [mkConsoleCall m msg args]) w).

(** The TypeError [Headers.prototype.set] throws on an immutable header list,
    as Node prints it. *)
Definition immutable_headers_error : string := "TypeError: immutable".

(** [response.headers.set(name, value)] on the response object: it throws
    when the guard of the header list is "immutable", and changes the list
    otherwise.  The names and values the sources pass are valid header names
    and values, and none is a forbidden response-header name. *)
Definition set_header (name value : string) (r : Response) : Eff Response :=
  match headers_guard r with
  | guard_immutable => throw immutable_headers_error
  | guard_response => mret (put_header name value r)
  end.

(* ===================================================================== *)
(** ** class LogsGonstrSecurity (security-logger.ts)                       *)
(* ===================================================================== *)

(** [private readonly maxLogs = 1000]. *)
Definition maxLogs : nat := 1000.

(** [extractIP] (lines 73-82). *)
Definition extractIP (request : option Request) : option string :=
  match request with
  | None => None
  | Some r =>
      let forwardedFor := Headers.get "x-forwarded-for" (request_headers r) in
      let realIP := Headers.get "x-real-ip" (request_headers r) in
      let vercelForwardedFor := Headers.get "x-vercel-forwarded-for" (request_headers r) in
      JS.or_opt vercelForwardedFor
        (JS.or_opt realIP
           (JS.or_opt (JS.split_comma_head <$> forwardedFor) None))
  end.

(** [sendCriticalAlert] (lines 84-98), split into the body of its [try], its
    [catch] handler, and the [async] function with its [try]/[catch] frame
    around a dispatch. *)
Definition sendCriticalAlert_try (log : SecurityLog) : Eff unit :=
  console_call console_log "🚨 CRITICAL SECURITY ALERT:" [LogArg log].

Definition sendCriticalAlert_catch (error : string) : Eff unit :=
  console_call console_error "[LogsGonstr] Failed to send critical alert:" [ErrorArg error].

Definition sendCriticalAlert_frame (dispatch : Eff unit) : Eff (Promise unit) :=
  async (try_catch dispatch sendCriticalAlert_catch).

Definition sendCriticalAlert (log : SecurityLog) : Eff (Promise unit) :=
  sendCriticalAlert_frame (sendCriticalAlert_try log).

(** The object literal of lines 30-42.  The clock is read for [timestamp], and
    once more for [buildTime] only when [__BUILD_TIME__] is falsy. *)
Definition new_logEntry (level : Level) (event : string)
    (details : option (gmap string JS.Value)) (request : option Request)
  : Eff SecurityLog :=
  g ← read globals;
  timestamp ← Date_toISOString;
  let buildVersion := JS.or_str (Some (__VERSION__ g)) "1.0.0-LogsGonstr" in
  buildTime ← match JS.truthy (Some (__BUILD_TIME__ g)) with
              | Some s => mret s
              | None => Date_toISOString
              end;
  mret {| timestamp := timestamp;
          level := level;
          event := event;
          details := <["buildTime" := JS.Str buildTime]>
                       (<["buildVersion" := JS.Str buildVersion]> (default ∅ details));
          ip := extractIP request;
          userAgent := JS.or_opt (request ≫= λ r, Headers.get "user-agent" (request_headers r)) None;
          endpoint := (λ r, pathname (request_url r)) <$> request |}.

(** [this.logs.push(logEntry); if (this.logs.length > this.maxLogs) this.logs.shift()]
    (lines 45-48). *)
Definition push_bounded (logEntry : SecurityLog) : Eff unit :=
  modify (λ w, with_logs (logs w ++ [logEntry]) w);;
  len ← read (λ w, length (logs w));
  if decide (maxLogs < len) then modify (λ w, with_logs (tail (logs w)) w) else mret tt.

(** The [switch] of lines 52-65. *)
Definition console_tier (level : Level) (consoleMessage : string) (logEntry : SecurityLog)
  : Eff unit :=
  match level with
  | INFO => console_call console_log consoleMessage [LogArg logEntry]
  | WARN => console_call console_warn consoleMessage [LogArg logEntry]
  | ERROR => console_call console_error consoleMessage [LogArg logEntry]
  | CRITICAL => console_call console_error ("🚨 " +:+ consoleMessage) [LogArg logEntry]
  end.

(** [log] (lines 29-71). *)
Definition log (level : Level) (event : string)
    (details : option (gmap string JS.Value)) (request : option Request) : Eff unit :=
  logEntry ← new_logEntry level event details request;
  push_bounded logEntry;;
  let consoleMessage :=
    "[LogsGonstr-" +:+ level_name level +:+ "] " +:+ timestamp logEntry +:+ " - " +:+ event in
  console_tier level consoleMessage logEntry;;
  g ← read globals;
  if bool_decide (level = CRITICAL) && window_defined g
  then sendCriticalAlert logEntry;; mret tt
  else mret tt.

(** [getRecentLogs(limit = 50)] (lines 100-102). *)
Definition getRecentLogs (limit : option Z) : Eff (list SecurityLog) :=
  let limit := default 50%Z limit in
  logs ← read logs;
  mret (JS.slice_from (- limit) logs).

(** [getLogsByLevel(level, limit = 50)] (lines 104-108). *)
Definition getLogsByLevel (lvl : Level) (limit : option Z) : Eff (list SecurityLog) :=
  let limit := default 50%Z limit in
  logs ← read logs;
  mret (JS.slice_from (- limit) (filter (λ log, level log = lvl) logs)).

(** [getCriticalEvents()] (lines 110-112). *)
Definition getCriticalEvents : Eff (list SecurityLog) :=
  logs ← read logs;
  mret (filter (λ log, level log = CRITICAL) logs).

Record TimeRange := mkTimeRange {
  from : string;
  to : string
}.

Record Report := mkReport {
  summary : gmap string nat;
  recentEvents : list SecurityLog;
  criticalEvents : list SecurityLog;
  timeRange : TimeRange
}.

(** The reducer of lines 120-123: [acc[log.level] = (acc[log.level] || 0) + 1]. *)
Definition count_level (acc : gmap string nat) (log : SecurityLog) : gmap string nat :=
  <[level_name (level log) := default 0 (acc !! level_name (level log)) + 1]> acc.

(** [x?.timestamp || new Date().toISOString()]: the clock is read only when
    the left operand is falsy. *)
Definition timestamp_or_now (entry : option SecurityLog) : Eff string :=
  match JS.truthy (timestamp <$> entry) with
  | Some s => mret s
  | None => Date_toISOString
  end.

(** [generateSecurityReport()] (lines 114-134). *)
Definition generateSecurityReport : Eff Report :=
  stored ← read logs;
  let summary := foldl count_level ∅ stored in
  recentEvents ← getRecentLogs (Some 10%Z);
  criticalEvents ← getCriticalEvents;
  from ← timestamp_or_now (head stored);
  to ← timestamp_or_now (last stored);
  mret {| summary := summary;
          recentEvents := recentEvents;
          criticalEvents := criticalEvents;
          timeRange := {| from := from; to := to |} |}.

(** [SECURITY_EVENTS] (lines 141-161). *)
Module SECURITY_EVENTS.
Definition NORMAL_ACCESS : string := "NORMAL_ACCESS".
Definition SUSPICIOUS_ACCESS : string := "SUSPICIOUS_ACCESS".
Definition BLOCKED_ACCESS : string := "BLOCKED_ACCESS".
Definition CSP_VIOLATION : string := "CSP_VIOLATION".
Definition XSS_ATTEMPT : string := "XSS_ATTEMPT".
Definition SQL_INJECTION_ATTEMPT : string := "SQL_INJECTION_ATTEMPT".
Definition SYSTEM_START : string := "SYSTEM_START".
Definition SYSTEM_ERROR : string := "SYSTEM_ERROR".
Definition RATE_LIMIT_HIT : string := "RATE_LIMIT_HIT".
Definition HEALTH_CHECK : string := "HEALTH_CHECK".
Definition PERFORMANCE_ALERT : string := "PERFORMANCE_ALERT".
Definition SECURITY_SCAN : string := "SECURITY_SCAN".
End SECURITY_EVENTS.

(* ===================================================================== *)
(** ** The request middleware (middleware.ts)                              *)
(* ===================================================================== *)

(** The value given to [Content-Security-Policy] (lines 17-24). *)
Definition CSP : string :=
  "default-src 'self'; " +:+
  "img-src 'self' https: data: blob:; " +:+
  "style-src 'self' 'unsafe-inline' fonts.googleapis.com; " +:+
  "font-src 'self' fonts.gstatic.com; " +:+
  "script-src 'self' 'unsafe-inline'; " +:+
  "connect-src 'self' vercel.live; " +:+
  "frame-ancestors 'none'; " +:+
  "base-uri 'self'".

Definition PERMISSIONS_POLICY : string :=
  "geolocation=(), microphone=(), camera=(), payment=(), usb=(), magnetometer=(), gyroscope=()".

(** Lines 5-10: what runs before the [try]; gives [startTime] and [clientIP]. *)
Definition onRequest_enter (context : APIContext) : Eff (Z * string) :=
  startTime ← Date_now;
  let userAgent :=
    JS.or_str (Headers.get "user-agent" (request_headers (request context))) "unknown" in
  let clientIP := JS.or_str (Some (clientAddress context)) "unknown" in
  now ← Date_toISOString;
  console_call console_log
    ("[LogsGonstr-Security] " +:+ now +:+ " - Request: " +:+ method (request context) +:+
     " " +:+ pathname (url context) +:+ " - IP: " +:+ clientIP +:+ " - UA: " +:+ userAgent) [];;
  mret (startTime, clientIP).

(** Lines 16-45: what follows [await next()] inside the [try]; a throw of
    [headers.set] is a throw inside the [try]. *)
Definition onRequest_decorate (context : APIContext) (startTime : Z) (response : Response)
  : Eff Response :=
  response ← set_header "Content-Security-Policy" CSP response;
  response ← set_header "X-Content-Type-Options" "nosniff" response;
  response ← set_header "X-Frame-Options" "DENY" response;
  response ← set_header "X-XSS-Protection" "1; mode=block" response;
  response ← set_header "Referrer-Policy" "strict-origin-when-cross-origin" response;
  response ← set_header "Permissions-Policy" PERMISSIONS_POLICY response;
  response ← set_header "X-Powered-By-LogsGonstr" "Secure-Portfolio-v1.0" response;
  scan ← Date_now;
  response ← set_header "X-Security-Scan" (pretty scan) response;
  finished ← Date_now;
  let responseTime := (finished - startTime)%Z in
  now ← Date_toISOString;
  console_call console_log
    ("[LogsGonstr-Security] " +:+ now +:+ " - Response: " +:+ pretty (status response) +:+
     " - Time: " +:+ pretty responseTime +:+ "ms - Path: " +:+ pathname (url context)) [];;
  mret response.

(** Lines 47-63: the [catch] handler. *)
Definition onRequest_catch (context : APIContext) (clientIP : string) (error : string)
  : Eff Response :=
  now ← Date_toISOString;
  console_call console_error
    ("[LogsGonstr-Security-ERROR] " +:+ now +:+ " - Error: " +:+ error +:+
     " - IP: " +:+ clientIP +:+ " - Path: " +:+ pathname (url context)) [];;
  errorId ← Date_now;
  mret {| status := 500;
          body := Text "Internal Server Error";
          headers := Headers.of_record
                       [("Content-Type", "text/plain");
                        ("X-Error-ID", "LogsGonstr-" +:+ pretty errorId);
                        ("X-Content-Type-Options", "nosniff");
                        ("X-Frame-Options", "DENY")];
          headers_guard := guard_response |}.

(** [onRequest(context, next)], awaited.  [next] is the awaited call of the
    downstream handler: it ends normally with the response, or throws. *)
Definition onRequest (context : APIContext) (next : Eff Response) : Eff Response :=
  '(startTime, clientIP) ← onRequest_enter context;
  try_catch
    (response ← next; onRequest_decorate context startTime response)
    (onRequest_catch context clientIP).

(* ===================================================================== *)
(** ** The status endpoint (pages/api/security-status)                     *)
(* ===================================================================== *)

Definition ADMIN_TOKEN : string := "LogsGonstr-Admin-2026".

(** What [JSON.stringify] makes of a stored event: properties whose value is
    [undefined] are left out. *)
Definition optional_property (key : string) (value : option string)
    (o : gmap string JS.Value) : gmap string JS.Value :=
  match value with
  | Some s => <[key := JS.Str s]> o
  | None => o
  end.

Definition SecurityLog_json (e : SecurityLog) : JS.Value :=
  JS.Obj
    (optional_property "endpoint" (endpoint e)
       (optional_property "userAgent" (userAgent e)
          (optional_property "ip" (ip e)
             (<["details" := JS.Obj (details e)]>
                (<["event" := JS.Str (event e)]>
                   (<["level" := JS.Str (level_name (level e))]>
                      (<["timestamp" := JS.Str (timestamp e)]> ∅))))))).

(** The properties [...report] spreads into the body. *)
Definition Report_properties (r : Report) : gmap string JS.Value :=
  <["timeRange" := JS.Obj (<["to" := JS.Str (to (timeRange r))]>
                             (<["from" := JS.Str (from (timeRange r))]> ∅))]>
    (<["criticalEvents" := JS.Arr (SecurityLog_json <$> criticalEvents r)]>
       (<["recentEvents" := JS.Arr (SecurityLog_json <$> recentEvents r)]>
          (<["summary" := JS.Obj ((λ n, JS.Num (Z.of_nat n)) <$> summary r)]> ∅))).

(** The fixed part of the body (lines 35-44), for the time [now]. *)
Definition status_envelope (now : string) : gmap string JS.Value :=
  <["security" := JS.Obj (<["monitoring" := JS.Str "active"]>
                            (<["middleware" := JS.Str "active"]>
                               (<["headers" := JS.Str "secured"]>
                                  (<["csp" := JS.Str "enabled"]> ∅))))]>
    (<["environment" := JS.Str "production"]>
       (<["version" := JS.Str "1.0.0-LogsGonstr"]>
          (<["timestamp" := JS.Str now]>
             (<["status" := JS.Str "secure"]> ∅)))).

(** [GET({ request, clientAddress })], awaited. *)
Definition GET (context : APIContext) : Eff Response :=
  let url := request_url (request context) in
  let token := searchParams_get "token" url in
  if decide (token ≠ Some ADMIN_TOKEN) then
    log WARN SECURITY_EVENTS.SUSPICIOUS_ACCESS
      (Some (<["endpoint" := JS.Str "/api/security-status"]>
               (<["ip" := JS.Str (clientAddress context)]>
                  (<["reason" := JS.Str "Invalid admin token attempt"]> ∅))))
      (Some (request context));;
    mret {| status := 401;
            body := Text "Unauthorized";
            headers := Headers.of_record
                         [("Content-Type", "text/plain");
                          ("X-Security-Alert", "Invalid Token")];
            headers_guard := guard_response |}
  else
    log INFO SECURITY_EVENTS.SECURITY_SCAN
      (Some (<["admin" := JS.Bool true]>
               (<["action" := JS.Str "Security status requested"]> ∅)))
      (Some (request context));;
    report ← generateSecurityReport;
    now ← Date_toISOString;
    mret {| status := 200;
            body := JSONText (JS.Obj (Report_properties report ∪ status_envelope now));
            headers := Headers.of_record
                         [("Content-Type", "application/json");
                          ("X-Security-Level", "high");
                          ("X-LogsGonstr-Version", "1.0.0")];
            headers_guard := guard_response |}.

(** A [log] call as data, to speak of sequences of calls. *)
Record LogCall := mkLogCall {
  call_level : Level;
  call_event : string;
  call_details : option (gmap string JS.Value);
  call_request : option Request
}.

Definition call (c : LogCall) : Eff unit :=
  log (call_level c) (call_event c) (call_details c) (call_request c).

Definition call_entry (c : LogCall) : Eff SecurityLog :=
  new_logEntry (call_level c) (call_event c) (call_details c) (call_request c).

(** The world after the calls, made one after the other. *)
Definition run (calls : list LogCall) (w : World) : World :=
  foldl (λ w c, (call c w).2) w calls.

(** The entries the calls build, in the order they are pushed. *)
Fixpoint recorded (calls : list LogCall) (w : World) : list SecurityLog :=
  match calls with
  | [] => []
  | c :: rest =>
      match call_entry c w with
      | (Normal e, _) => e :: recorded rest (call c w).2
      | (Throw _, _) => recorded rest (call c w).2
      end
  end.

(** The last [n] elements of a list. *)
Definition last_n {A} (n : nat) (l : list A) : list A := drop (length l - n) l.

(** Appending to a buffer of the given capacity, the oldest element leaving
    when the capacity is exceeded. *)
Definition push_evict {A} (capacity : nat) (l : list A) (x : A) : list A :=
  if decide (capacity < length (l ++ [x])) then tail (l ++ [x]) else l ++ [x].

(** The console lines one [log] call writes for the entry it stored. *)
Definition tier_line (e : SecurityLog) : ConsoleCall :=
  let consoleMessage :=
    "[LogsGonstr-" +:+ level_name (level e) +:+ "] " +:+ timestamp e +:+ " - " +:+ event e in
  match level e with
  | INFO => mkConsoleCall console_log consoleMessage [LogArg e]
  | WARN => mkConsoleCall console_warn consoleMessage [LogArg e]
  | ERROR => mkConsoleCall console_error consoleMessage [LogArg e]
  | CRITICAL => mkConsoleCall console_error ("🚨 " +:+ consoleMessage) [LogArg e]
  end.

Definition alert_line (e : SecurityLog) : ConsoleCall :=
  mkConsoleCall console_log "🚨 CRITICAL SECURITY ALERT:" [LogArg e].

(** Every stored timestamp is truthy: it was made by [toISOString]. *)
Definition timestamps_set (w : World) : Prop :=
  Forall (λ e, timestamp e ≠ "") (logs w).

(** The sum of the counts of a summary. *)
Definition summary_total (s : gmap string nat) : nat :=
  map_fold (λ _ n total, n + total) 0 s.

(** ** Sample data for the examples *)

(** A server-side build (no [window]) made on 2026-01-01, and a clock that
    starts at 2026-01-20T00:00:00Z and advances by 250 ms per reading. *)
Definition sample_globals : Globals := astro_define 1767225600000 false.

Definition sample_clock (k : nat) : Z := (1768867200000 + 250 * Z.of_nat k)%Z.

Definition sample_world : World := initial_world sample_globals sample_clock.

Definition sample_call (lvl : Level) (ev : string) : LogCall :=
  mkLogCall lvl ev None None.

(** The scenario of five events: two info, two warn, one critical. *)
Definition five_events : list LogCall :=
  [sample_call INFO "A"; sample_call INFO "B"; sample_call WARN "C";
   sample_call WARN "D"; sample_call CRITICAL "E"].

(** A request for the home page, and a downstream response without headers. *)
Definition sample_request : Request :=
  mkRequest "GET" (mkURL "/" []) [("user-agent", "curl/8.5.0")].

Definition sample_context : APIContext :=
  mkAPIContext sample_request (mkURL "/" []) "203.0.113.7".

Definition bare_response : Response :=
  mkResponse 200 (Text "<html></html>") [] guard_response.

(** What a handler returns with [Response.redirect("/login")]: status 302, a
    [location] header, and a header list that cannot be changed. *)
Definition redirect_response : Response :=
  mkResponse 302 (Text "") [("location", "/login")] guard_immutable.

(** Requests to the status endpoint with a given query string. *)
Definition status_context (query : list (string * string)) : APIContext :=
  mkAPIContext (mkRequest "GET" (mkURL "/api/security-status" query) [])
    (mkURL "/api/security-status" query) "203.0.113.7".

(** ** The singleton (security-logger.ts, lines 16-27) *)

Module Singleton.

(** The class [LogsGonstrSecurity] at run time: the objects its private
    constructor has built (each with its [logs] array), and the static field
    [instance], a reference to one of them or [undefined]. *)
Record Class := mkClass {
  objects : list (list SecurityLog);
  instance : option nat
}.

(** The class when it has just been declared. *)
Definition declared : Class := {| objects := []; instance := None |}.

(** [getInstance()] (lines 22-27): the object is built on the first call only. *)
Definition getInstance (c : Class) : nat * Class :=
  match instance c with
  | Some ref => (ref, c)
  | None =>
      let ref := length (objects c) in
      (ref, {| objects := objects c ++ [[]]; instance := Some ref |})
  end.

(** The references a number of successive [getInstance()] calls return, and
    the class after them. *)
Fixpoint getInstances (n : nat) (c : Class) : list nat * Class :=
  match n with
  | O => ([], c)
  | S n' =>
      let '(ref, c1) := getInstance c in
      let '(refs, c2) := getInstances n' c1 in
      (ref :: refs, c2)
  end.

End Singleton.

(** ** Sequences of requests to the status endpoint *)

(** The world after the requests, served one after the other. *)
Definition serve (requests : list APIContext) (w : World) : World :=
  foldl (λ w context, (GET context w).2) w requests.

(** The token a request presents. *)
Definition presented_token (context : APIContext) : option string :=
  searchParams_get "token" (request_url (request context)).

(** The names of the headers [onRequest] sets on a successful response, as
    the header list stores them. *)
Definition decorated_names : list string :=
  Headers.lower <$>
    ["Content-Security-Policy"; "X-Content-Type-Options"; "X-Frame-Options";
     "X-XSS-Protection"; "Referrer-Policy"; "Permissions-Policy";
     "X-Powered-By-LogsGonstr"; "X-Security-Scan"].

(** The number of stored entries of a level. *)
Definition count_of (lvl : Level) (stored : list SecurityLog) : nat :=
  length (filter (λ e, level e = lvl) stored).

(* ===================================================================== *)
(** * Properties                                                          *)
(* ===================================================================== *)

(** ** The platform operations on concrete inputs *)

Example toISOString_epoch : JS.toISOString 0 = "1970-01-01T00:00:00.000Z".
Proof. vm_compute. reflexivity. Qed.

Example toISOString_2026 : JS.toISOString 1767225600000 = "2026-01-01T00:00:00.000Z".
Proof. vm_compute. reflexivity. Qed.

Example toISOString_leap_day :
  JS.toISOString 1709210096789 = "2024-02-29T12:34:56.789Z".
Proof. vm_compute. reflexivity. Qed.

Example toISOString_before_epoch : JS.toISOString (-1) = "1969-12-31T23:59:59.999Z".
Proof. vm_compute. reflexivity. Qed.

Example slice_from_last_two : JS.slice_from (-2) [1; 2; 3] = [2; 3].
Proof. reflexivity. Qed.

Example slice_from_minus_zero : JS.slice_from (- 0) [1; 2; 3] = [1; 2; 3].
Proof. reflexivity. Qed.

Example headers_set_replaces :
  Headers.get "X-Frame-Options"
    (Headers.set "X-Frame-Options" "DENY"
       [("x-frame-options", "SAMEORIGIN"); ("etag", "abc"); ("x-frame-options", "ALLOW")])
  = Some "DENY".
Proof. vm_compute. reflexivity. Qed.

Example split_comma_head_forwarded : JS.split_comma_head "1.2.3.4, 5.6.7.8" = "1.2.3.4".
Proof. reflexivity. Qed.

Example extractIP_prefers_vercel :
  extractIP (Some (mkRequest "GET" (mkURL "/" [])
                     [("x-forwarded-for", "10.0.0.1, 10.0.0.2");
                      ("x-vercel-forwarded-for", "198.51.100.4")]))
  = Some "198.51.100.4".
Proof. vm_compute. reflexivity. Qed.

Example extractIP_forwarded_for :
  extractIP (Some (mkRequest "GET" (mkURL "/" []) [("x-forwarded-for", "10.0.0.1, 10.0.0.2")]))
  = Some "10.0.0.1".
Proof. vm_compute. reflexivity. Qed.

#[global] Arguments JS.truthy : simpl never.
#[global] Arguments JS.or_str : simpl never.
#[global] Arguments JS.or_opt : simpl never.
#[global] Arguments JS.toISOString : simpl never.
#[global] Arguments JS.slice_from : simpl never.
#[global] Arguments extractIP : simpl never.
#[global] Arguments Headers.get : simpl never.
#[global] Arguments Headers.lower : simpl never.
#[global] Arguments timestamp_or_now : simpl never.

Ltac eff_unfold :=
  unfold mbind, mret, Eff_bind, Eff_ret, read, modify, throw, try_catch, async,
    console_call, Date_toISOString, Date_now in *.

(** ** Lists: the last [n] elements and the bounded push *)

Section BoundedBuffer.
Context {A : Type}.
Variable capacity : nat.

Lemma tail_drop (l : list A) n : tail (drop n l) = drop (S n) l.
Proof.
  assert (Htail : ∀ k : list A, tail k = drop 1 k) by (by intros []).
  by rewrite Htail, drop_drop, Nat.add_1_r.
Qed.

Lemma last_n_all (l : list A) : length l ≤ capacity → last_n capacity l = l.
Proof. intros Hle. unfold last_n. by replace (length l - capacity) with 0 by lia. Qed.

Lemma length_last_n (l : list A) : length (last_n capacity l) = length l `min` capacity.
Proof. unfold last_n. rewrite length_drop. lia. Qed.

Lemma push_evict_below (l : list A) x :
  length l < capacity → push_evict capacity l x = l ++ [x].
Proof.
  intros Hlt. unfold push_evict. rewrite length_app. simpl.
  case_decide; [lia | done].
Qed.

Lemma push_evict_full (l : list A) x :
  length l = capacity → push_evict capacity l x = tail (l ++ [x]).
Proof.
  intros Hfull. unfold push_evict. rewrite length_app. simpl.
  case_decide; [done | lia].
Qed.

Hypothesis capacity_pos : 0 < capacity.

Lemma push_evict_last_n (h : list A) (x : A) :
  push_evict capacity (last_n capacity h) x = last_n capacity (h ++ [x]).
Proof.
  unfold push_evict, last_n.
  rewrite !length_app, length_drop. simpl.
  destruct (decide (length h < capacity)) as [Hlt | Hge].
  - replace (length h - capacity) with 0 by lia.
    replace (length h + 1 - capacity) with 0 by lia.
    rewrite !drop_0. case_decide; [lia | done].
  - case_decide; [| lia].
    replace (length h + 1 - capacity) with (S (length h - capacity)) by lia.
    rewrite <- (drop_app_le h [x]) by lia.
    apply tail_drop.
Qed.
End BoundedBuffer.

Lemma maxLogs_pos : 0 < maxLogs.
Proof. unfold maxLogs. lia. Qed.

(** ** What one [log] call does *)

Lemma new_logEntry_spec lvl ev d r w :
  ∃ e k,
    new_logEntry lvl ev d r w = (Normal e, with_reads (reads w + S k) w) ∧
    timestamp e = JS.toISOString (clock w (reads w)) ∧
    level e = lvl ∧ event e = ev ∧
    details e =
      <["buildTime" := JS.Str (match JS.truthy (Some (__BUILD_TIME__ (globals w))) with
                               | Some s => s
                               | None => JS.toISOString (clock w (S (reads w)))
                               end)]>
        (<["buildVersion" := JS.Str (JS.or_str (Some (__VERSION__ (globals w))) "1.0.0-LogsGonstr")]>
           (default ∅ d)) ∧
    ip e = extractIP r ∧
    endpoint e = (λ q, pathname (request_url q)) <$> r.
Proof.
  unfold new_logEntry. eff_unfold. simpl.
  destruct (JS.truthy (Some (__BUILD_TIME__ (globals w)))) as [s |] eqn:Hbt; simpl.
  - eexists _, 0. rewrite Nat.add_1_r. split; [reflexivity |]. simpl. by rewrite ?Hbt.
  - eexists _, 1. split.
    + unfold with_reads. simpl. do 2 f_equal. lia.
    + simpl. by rewrite ?Hbt.
Qed.

Lemma log_spec lvl ev d r w e w1 :
  new_logEntry lvl ev d r w = (Normal e, w1) →
  ∃ w', log lvl ev d r w = (Normal tt, w') ∧
        logs w' = push_evict maxLogs (logs w1) e ∧
        console w' = console w1 ++ tier_line e ::
                       (if bool_decide (level e = CRITICAL) && window_defined (globals w1)
                        then [alert_line e] else []) ∧
        reads w' = reads w1 ∧ clock w' = clock w1 ∧ globals w' = globals w1.
Proof.
  intros Hentry.
  destruct (new_logEntry_spec lvl ev d r w) as (e' & k & He' & _ & Hlvl & Hev & _).
  rewrite Hentry in He'. injection He' as <- Hw1.
  unfold log. unfold mbind at 1. unfold Eff_bind at 1. rewrite Hentry.
  unfold push_bounded, push_evict, console_tier, sendCriticalAlert, sendCriticalAlert_frame,
    sendCriticalAlert_try, sendCriticalAlert_catch, tier_line, alert_line.
  eff_unfold. simpl. rewrite Hlvl, Hev.
  destruct (decide (maxLogs < length (logs w1 ++ [e]))) as [Hover | Hfits];
    destruct lvl; simpl;
    try destruct (window_defined (globals w1)); simpl;
    eexists; (split; [reflexivity |]); simpl;
    rewrite <- ?app_assoc; done.
Qed.

Lemma call_spec c w :
  ∃ e w1 w',
    call_entry c w = (Normal e, w1) ∧ logs w1 = logs w ∧ console w1 = console w ∧
    globals w1 = globals w ∧
    call c w = (Normal tt, w') ∧
    logs w' = push_evict maxLogs (logs w) e ∧
    level e = call_level c ∧
    timestamp e = JS.toISOString (clock w (reads w)).
Proof.
  unfold call, call_entry.
  destruct (new_logEntry_spec (call_level c) (call_event c) (call_details c)
              (call_request c) w) as (e & k & He & Hts & Hlvl & _).
  destruct (log_spec _ _ _ _ _ _ _ He) as (w' & Hlog & Hlogs & _).
  exists e, (with_reads (reads w + S k) w), w'. split_and!; done.
Qed.

Lemma run_cons c calls w : run (c :: calls) w = run calls (call c w).2.
Proof. reflexivity. Qed.

Lemma run_app calls1 calls2 w : run (calls1 ++ calls2) w = run calls2 (run calls1 w).
Proof. unfold run. apply foldl_app. Qed.

Lemma recorded_length calls : ∀ w, length (recorded calls w) = length calls.
Proof.
  induction calls as [| c calls IH]; intros w; [done |]. simpl.
  destruct (call_spec c w) as (e & w1 & w' & -> & _). simpl. by rewrite IH.
Qed.

(** The stored array is the last [maxLogs] entries of the whole history. *)
Lemma run_logs_history calls : ∀ w history,
  logs w = last_n maxLogs history →
  logs (run calls w) = last_n maxLogs (history ++ recorded calls w).
Proof.
  induction calls as [| c calls IH]; intros w history Hw.
  - simpl. by rewrite app_nil_r.
  - rewrite run_cons. simpl.
    destruct (call_spec c w) as (e & w1 & w' & -> & _ & _ & _ & -> & Hpush & _). simpl.
    rewrite (IH w' (history ++ [e])).
    + by rewrite <- app_assoc.
    + rewrite Hpush, Hw. apply push_evict_last_n, maxLogs_pos.
Qed.

(** C1. Starting from the empty log, after any sequence of [log] calls the
    stored array holds at most [maxLogs] = 1000 entries: exactly the last 1000
    entries recorded (all of them while there are fewer), oldest first.  Each
    call appends its entry, and drops the oldest one when the array was full. *)
Theorem event_log_bounded_fifo (g : Globals) (clk : nat → Z) (calls : list LogCall) :
  let w0 := initial_world g clk in
  let w := run calls w0 in
  maxLogs = 1000 ∧
  length (recorded calls w0) = length calls ∧
  logs w = last_n maxLogs (recorded calls w0) ∧
  length (logs w) = length calls `min` maxLogs ∧
  length (logs w) ≤ maxLogs ∧
  ∀ c, ∃ e w1,
    call_entry c w = (Normal e, w1) ∧
    logs (call c w).2 =
      if decide (length (logs w) < maxLogs) then logs w ++ [e] else tail (logs w) ++ [e].
Proof.
  intros w0 w.
  assert (Hlogs : logs w = last_n maxLogs (recorded calls w0)).
  { unfold w. by rewrite (run_logs_history calls w0 []). }
  assert (Hlen : length (logs w) = length calls `min` maxLogs).
  { by rewrite Hlogs, length_last_n, recorded_length. }
  split_and!; [done | apply recorded_length | done | done | lia |].
  intros c.
  destruct (call_spec c w) as (e & w1 & w' & Hentry & _ & _ & _ & -> & Hpush & _).
  exists e, w1. split; [done |]. simpl. rewrite Hpush.
  case_decide.
  - by apply push_evict_below.
  - rewrite push_evict_full by lia.
    destruct (logs w) eqn:Hstored; [| done].
    pose proof maxLogs_pos. simpl in *. lia.
Qed.

(** ** The queries *)

Lemma slice_from_last_n {A} (n : Z) (l : list A) :
  (0 < n)%Z → JS.slice_from (- n) l = last_n (Z.to_nat n) l.
Proof.
  intros Hn. unfold JS.slice_from, last_n.
  destruct (Z.ltb_spec (- n) 0); [| lia]. f_equal. lia.
Qed.

Lemma slice_from_zero {A} (l : list A) : JS.slice_from (- 0) l = l.
Proof.
  unfold JS.slice_from. simpl.
  replace (Z.to_nat ((- 0) `min` Z.of_nat (length l))) with 0 by lia. done.
Qed.

Lemma last_n_length_le {A} n (l : list A) : length (last_n n l) ≤ n `min` length l.
Proof. unfold last_n. rewrite length_drop. lia. Qed.

Lemma last_n_suffix {A} n (l : list A) : last_n n l `suffix_of` l.
Proof. apply suffix_drop. Qed.

Lemma getRecentLogs_eq limit w :
  getRecentLogs limit w = (Normal (JS.slice_from (- default 50%Z limit) (logs w)), w).
Proof. reflexivity. Qed.

(** With a limit of at least one, and with the default, [getRecentLogs] gives
    the last [limit] stored entries, in the stored order. *)
Lemma getRecentLogs_positive (n : Z) w :
  (0 < n)%Z → getRecentLogs (Some n) w = (Normal (last_n (Z.to_nat n) (logs w)), w).
Proof. intros Hn. rewrite getRecentLogs_eq. simpl. by rewrite slice_from_last_n. Qed.

Lemma getRecentLogs_default w :
  getRecentLogs None w = (Normal (last_n 50 (logs w)), w).
Proof. rewrite getRecentLogs_eq. simpl. by rewrite (slice_from_last_n 50). Qed.

Lemma getRecentLogs_exceeding (n : Z) w :
  (Z.of_nat (length (logs w)) ≤ n)%Z → (0 < n)%Z →
  getRecentLogs (Some n) w = (Normal (logs w), w).
Proof.
  intros Hall Hn. rewrite getRecentLogs_positive by done.
  rewrite last_n_all by lia. done.
Qed.

(** [slice(-0)] is [slice(0)]: a limit of zero gives the whole array. *)
Lemma getRecentLogs_zero w : getRecentLogs (Some 0%Z) w = (Normal (logs w), w).
Proof. rewrite getRecentLogs_eq. simpl default. by rewrite slice_from_zero. Qed.

Lemma getLogsByLevel_eq lvl limit w :
  getLogsByLevel lvl limit w =
  (Normal (JS.slice_from (- default 50%Z limit) (filter (λ e, level e = lvl) (logs w))), w).
Proof. reflexivity. Qed.

Lemma slice_from_suffix {A} (start : Z) (l : list A) : JS.slice_from start l `suffix_of` l.
Proof. unfold JS.slice_from. apply suffix_drop. Qed.

(** Whatever the limit, [getLogsByLevel] gives only entries of the level
    asked for. *)
Lemma getLogsByLevel_only_level lvl limit w out w' :
  getLogsByLevel lvl limit w = (Normal out, w') → Forall (λ e, level e = lvl) out.
Proof.
  rewrite getLogsByLevel_eq. intros [= <- <-].
  apply Forall_forall. intros e He.
  assert (Hin : e ∈ filter (λ e, level e = lvl) (logs w)).
  { eapply elem_of_suffix; [apply He | apply slice_from_suffix]. }
  by apply list_elem_of_filter in Hin as [? _].
Qed.

Lemma getLogsByLevel_positive lvl (n : Z) w :
  (0 < n)%Z →
  getLogsByLevel lvl (Some n) w =
  (Normal (last_n (Z.to_nat n) (filter (λ e, level e = lvl) (logs w))), w).
Proof. intros Hn. rewrite getLogsByLevel_eq. simpl. by rewrite slice_from_last_n. Qed.

Lemma getLogsByLevel_zero lvl w :
  getLogsByLevel lvl (Some 0%Z) w = (Normal (filter (λ e, level e = lvl) (logs w)), w).
Proof. rewrite getLogsByLevel_eq. simpl default. by rewrite slice_from_zero. Qed.

Lemma getCriticalEvents_eq w :
  getCriticalEvents w = (Normal (filter (λ e, level e = CRITICAL) (logs w)), w).
Proof. reflexivity. Qed.

(** C2, at the limit 0.  With two entries stored, [getRecentLogs(0)] returns
    both of them, although [min(0, 2) = 0]: the code computes
    [this.logs.slice(-0)], which is the whole array. *)
Theorem getRecentLogs_zero_limit_returns_all :
  let w := run [sample_call INFO "A"; sample_call WARN "B"] sample_world in
  ∃ out, getRecentLogs (Some 0%Z) w = (Normal out, w) ∧
         out = logs w ∧ event <$> out = ["A"; "B"] ∧
         ¬ (length out ≤ Z.to_nat 0 `min` length (logs w)).
Proof.
  intros w. exists (logs w). rewrite getRecentLogs_zero.
  split_and!; [done | done | by vm_compute |].
  assert (Hlen : length (logs w) = 2) by (by vm_compute).
  rewrite Hlen. simpl. lia.
Qed.

(** C3, at the limit 0.  With two INFO entries stored, [getLogsByLevel('INFO', 0)]
    returns both of them, where the last 0 matching entries are none: the same
    [slice(-0)]. *)
Theorem getLogsByLevel_zero_limit_returns_all :
  let w := run [sample_call INFO "A"; sample_call WARN "B"; sample_call INFO "C"]
             sample_world in
  ∃ out, getLogsByLevel INFO (Some 0%Z) w = (Normal out, w) ∧
         event <$> out = ["A"; "C"] ∧
         out ≠ last_n (Z.to_nat 0) (filter (λ e, level e = INFO) (logs w)).
Proof.
  intros w. eexists. rewrite getLogsByLevel_zero.
  split_and!; [done | by vm_compute |].
  intros Heq. apply (f_equal length) in Heq. revert Heq. by vm_compute.
Qed.

(** ** The report *)

Lemma summary_total_insert_fresh k n (s : gmap string nat) :
  s !! k = None → summary_total (<[k := n]> s) = n + summary_total s.
Proof.
  intros Hfresh. unfold summary_total.
  rewrite map_fold_insert_L; [done | intros; lia | done].
Qed.

Lemma summary_total_delete k n (s : gmap string nat) :
  s !! k = Some n → summary_total s = n + summary_total (delete k s).
Proof.
  intros Hk. unfold summary_total.
  rewrite (map_fold_delete_L _ _ k n s); [done | intros; lia | done].
Qed.

Lemma count_level_total acc e : summary_total (count_level acc e) = S (summary_total acc).
Proof.
  unfold count_level. set (k := level_name (level e)).
  destruct (acc !! k) as [n |] eqn:Hk; simpl.
  - rewrite <- insert_delete_eq.
    rewrite summary_total_insert_fresh by apply lookup_delete_eq.
    rewrite (summary_total_delete k n acc) by done. lia.
  - by rewrite summary_total_insert_fresh.
Qed.

Lemma foldl_count_level_total l : ∀ acc,
  summary_total (foldl count_level acc l) = summary_total acc + length l.
Proof.
  induction l as [| e l IH]; intros acc; simpl; [lia |].
  rewrite IH, count_level_total. lia.
Qed.

Lemma level_name_inj : Inj (=) (=) level_name.
Proof. intros [] []; simpl; congruence. Qed.

(** The count kept under a level is the number of stored entries of that
    level; a level without entries has no key. *)
Lemma foldl_count_level_lookup l lvl : ∀ acc,
  default 0 (foldl count_level acc l !! level_name lvl) =
  default 0 (acc !! level_name lvl) + length (filter (λ e, level e = lvl) l).
Proof.
  induction l as [| e l IH]; intros acc; simpl; [lia |].
  rewrite IH. unfold count_level at 1.
  rewrite filter_cons. destruct (decide (level e = lvl)) as [-> | Hne]; simpl.
  - rewrite lookup_insert_eq. simpl. lia.
  - rewrite lookup_insert_ne; [done |]. intros Heq. by apply level_name_inj in Heq.
Qed.

Lemma timestamp_or_now_stored e w :
  timestamp e ≠ "" → timestamp_or_now (Some e) w = (Normal (timestamp e), w).
Proof.
  intros Hts. unfold timestamp_or_now, JS.truthy. simpl.
  by destruct (decide (timestamp e = "")).
Qed.

Lemma timestamp_or_now_missing w :
  timestamp_or_now None w =
  (Normal (JS.toISOString (clock w (reads w))), with_reads (S (reads w)) w).
Proof. reflexivity. Qed.

Lemma timestamp_or_now_normal entry w :
  ∃ s k, timestamp_or_now entry w = (Normal s, with_reads (reads w + k) w).
Proof.
  unfold timestamp_or_now.
  destruct (JS.truthy (timestamp <$> entry)) as [s |].
  - exists s, 0. unfold mret, Eff_ret, with_reads. rewrite Nat.add_0_r. by destruct w.
  - eexists _, 1. rewrite Nat.add_1_r. reflexivity.
Qed.

Lemma generateSecurityReport_spec w :
  ∃ r k,
    generateSecurityReport w = (Normal r, with_reads (reads w + k) w) ∧
    summary r = foldl count_level ∅ (logs w) ∧
    recentEvents r = last_n 10 (logs w) ∧
    criticalEvents r = filter (λ e, level e = CRITICAL) (logs w).
Proof.
  unfold generateSecurityReport, getRecentLogs, getCriticalEvents. eff_unfold. simpl.
  destruct (timestamp_or_now_normal (head (logs w)) w) as (s1 & k1 & ->).
  destruct (timestamp_or_now_normal (last (logs w)) (with_reads (reads w + k1) w))
    as (s2 & k2 & ->).
  eexists _, (k1 + k2). split.
  - rewrite Nat.add_assoc. reflexivity.
  - simpl. by rewrite (slice_from_last_n 10).
Qed.

(** C4. The counts of the report's summary add up to the number of entries
    stored at that moment; after any number of [log] calls from the empty log
    that is [min(calls, 1000)], so 1000 and not N after N > 1000 calls. *)
Theorem report_summary_counts_retained_entries
    (w : World) (g : Globals) (clk : nat → Z) (calls : list LogCall) :
  (∃ r w', generateSecurityReport w = (Normal r, w') ∧
           summary_total (summary r) = length (logs w)) ∧
  (∃ r w', generateSecurityReport (run calls (initial_world g clk)) = (Normal r, w') ∧
           summary_total (summary r) = length calls `min` 1000).
Proof.
  assert (Hany : ∀ v, ∃ r w', generateSecurityReport v = (Normal r, w') ∧
                              summary_total (summary r) = length (logs v)).
  { intros v. destruct (generateSecurityReport_spec v) as (r & k & Hr & Hsum & _).
    exists r, (with_reads (reads v + k) v). split; [done |].
    rewrite Hsum, foldl_count_level_total. unfold summary_total.
    by rewrite map_fold_empty. }
  split; [apply Hany |].
  destruct (Hany (run calls (initial_world g clk))) as (r & w' & Hr & Hsum).
  exists r, w'. split; [done |]. rewrite Hsum.
  rewrite (run_logs_history calls (initial_world g clk) []) by done.
  simpl. by rewrite length_last_n, recorded_length.
Qed.

Lemma append_cons_nonempty (a : string) c b : a +:+ String c b ≠ "".
Proof. by destruct a. Qed.

Lemma toISOString_nonempty t : JS.toISOString t ≠ "".
Proof.
  unfold JS.toISOString. destruct (JS.civil_from_days _) as [[y m] d].
  apply append_cons_nonempty.
Qed.

Lemma initial_world_timestamps_set g clk : timestamps_set (initial_world g clk).
Proof. constructor. Qed.

Lemma push_evict_Forall {A} (P : A → Prop) n l x :
  Forall P l → P x → Forall P (push_evict n l x).
Proof.
  intros Hl Hx. unfold push_evict.
  assert (Hall : Forall P (l ++ [x])) by (apply Forall_app; auto).
  case_decide; [| done].
  destruct (l ++ [x]); [done |]. by apply Forall_cons in Hall as [_ ?].
Qed.

Lemma call_timestamps_set c w : timestamps_set w → timestamps_set (call c w).2.
Proof.
  unfold timestamps_set. intros Hw.
  destruct (call_spec c w) as (e & w1 & w' & _ & _ & _ & _ & -> & Hpush & _ & Hts).
  simpl. rewrite Hpush.
  apply push_evict_Forall; [done |]. rewrite Hts. apply toISOString_nonempty.
Qed.

Lemma run_timestamps_set calls : ∀ w, timestamps_set w → timestamps_set (run calls w).
Proof.
  induction calls as [| c calls IH]; intros w Hw; [done |].
  rewrite run_cons. by apply IH, call_timestamps_set.
Qed.

(** C5. For a log whose timestamps were set by [log], the report carries the
    last ten stored entries (all of them when there are fewer), the stored
    CRITICAL entries in stored order, and a time range from the timestamp of the
    oldest stored entry to that of the newest; on the empty log both bounds are
    readings of the clock taken while the report is built. *)
Theorem report_recent_critical_time_range (w : World) :
  timestamps_set w →
  ∃ r w', generateSecurityReport w = (Normal r, w') ∧
    recentEvents r = last_n 10 (logs w) ∧
    criticalEvents r = filter (λ e, level e = CRITICAL) (logs w) ∧
    match logs w with
    | [] => from (timeRange r) = JS.toISOString (clock w (reads w)) ∧
            to (timeRange r) = JS.toISOString (clock w (S (reads w)))
    | oldest :: _ => from (timeRange r) = timestamp oldest ∧
                     Some (to (timeRange r)) = timestamp <$> last (logs w)
    end.
Proof.
  unfold timestamps_set. intros Hts.
  destruct (generateSecurityReport_spec w) as (r & k & Hr & _ & Hrecent & Hcritical).
  exists r, (with_reads (reads w + k) w). split_and!; [done | done | done |].
  revert Hr. unfold generateSecurityReport, getRecentLogs, getCriticalEvents.
  eff_unfold. simpl.
  destruct (logs w) as [| oldest rest] eqn:Hstored.
  - simpl. by intros [= <- _].
  - assert (Hlast : ∃ newest, last (oldest :: rest) = Some newest ∧ timestamp newest ≠ "").
    { destruct (last (oldest :: rest)) as [newest |] eqn:Hnewest.
      - exists newest. split; [done |].
        apply last_Some_elem_of in Hnewest.
        by eapply Forall_forall in Hts.
      - by apply last_None in Hnewest. }
    destruct Hlast as (newest & -> & Hnewest).
    apply Forall_cons in Hts as [Holdest _]. simpl.
    rewrite !timestamp_or_now_stored by done. by intros [= <- _].
Qed.

Lemma report_recent_critical_time_range_witness :
  let w := run five_events sample_world in
  ∃ r w', generateSecurityReport w = (Normal r, w') ∧
    event <$> recentEvents r = ["A"; "B"; "C"; "D"; "E"] ∧
    event <$> criticalEvents r = ["E"] ∧
    from (timeRange r) = "2026-01-20T00:00:00.000Z" ∧
    to (timeRange r) = "2026-01-20T00:00:01.000Z".
Proof.
  intros w.
  destruct (report_recent_critical_time_range w) as (r & w' & Hr & Hrecent & Hcritical & Hrange).
  { apply (bool_decide_unpack _). by vm_compute. }
  exists r, w'. split; [done |].
  rewrite Hrecent, Hcritical.
  split_and!; [by vm_compute | by vm_compute | |].
  - revert Hrange. vm_compute. by intros [-> _].
  - revert Hrange. vm_compute. intros [_ [= ->]]. done.
Defined.

(** ** The header list *)

Module HeadersFacts.
Import Headers.


Lemma filter_named_not_named name (hs : t) :
  filter (named name) (filter (λ h, ¬ named name h) hs) = [].
Proof.
  induction hs as [| h hs IH]; [done |].
  destruct (decide (named name h)) as [Hh | Hh].
  - by rewrite (filter_cons_False (λ h, ¬ named name h)) by tauto.
  - rewrite (filter_cons_True (λ h, ¬ named name h)) by done.
    by rewrite (filter_cons_False (named name)) by done.
Qed.

Lemma filter_named_set_eq name value (hs : t) :
  filter (named name) (set name value hs) = [(lower name, value)].
Proof.
  assert (Hnew : named name (lower name, value)) by done.
  induction hs as [| h hs IH]; cbn [set].
  - by rewrite (filter_cons_True (named name)) by done.
  - destruct (decide (named name h)) as [Hh | Hh].
    + rewrite (filter_cons_True (named name)) by done. by rewrite filter_named_not_named.
    + by rewrite (filter_cons_False (named name)) by done.
Qed.

Lemma filter_named_other name other (hs : t) :
  lower name ≠ lower other →
  filter (named other) (filter (λ h, ¬ named name h) hs) = filter (named other) hs.
Proof.
  intros Hne. induction hs as [| h hs IH]; [done |].
  destruct (decide (named name h)) as [Hh | Hh].
  - rewrite (filter_cons_False (λ h, ¬ named name h)) by tauto.
    rewrite (filter_cons_False (named other)); [done |].
    unfold named in *. congruence.
  - rewrite (filter_cons_True (λ h, ¬ named name h)) by done.
    destruct (decide (named other h)).
    + rewrite !(filter_cons_True (named other)) by done. by rewrite IH.
    + by rewrite !(filter_cons_False (named other)) by done.
Qed.

Lemma filter_named_set_ne name other value (hs : t) :
  lower name ≠ lower other →
  filter (named other) (set name value hs) = filter (named other) hs.
Proof.
  intros Hne.
  assert (Hnew : ¬ named other (lower name, value)) by (unfold named; simpl; congruence).
  induction hs as [| h hs IH]; cbn [set].
  - by rewrite (filter_cons_False (named other)) by done.
  - destruct (decide (named name h)) as [Hh | Hh].
    + rewrite (filter_cons_False (named other)), filter_named_other by done.
      rewrite (filter_cons_False (named other)); [done |]. unfold named in *. congruence.
    + destruct (decide (named other h)).
      * rewrite !(filter_cons_True (named other)) by done. by rewrite IH.
      * by rewrite !(filter_cons_False (named other)) by done.
Qed.

(** After [set(name, value)], [get(name)] gives [value]. *)
Lemma get_set_eq name value (hs : t) : get name (set name value hs) = Some value.
Proof. unfold get. by rewrite filter_named_set_eq. Qed.

(** [set(name, _)] leaves the headers of other names as they were. *)
Lemma get_set_ne name other value (hs : t) :
  lower name ≠ lower other → get other (set name value hs) = get other hs.
Proof. intros Hne. unfold get. by rewrite filter_named_set_ne. Qed.

End HeadersFacts.

(** ** The middleware *)

Lemma onRequest_enter_spec context w :
  ∃ line,
    onRequest_enter context w =
    (Normal (clock w (reads w), JS.or_str (Some (clientAddress context)) "unknown"),
     with_console (console w ++ [line]) (with_reads (S (S (reads w))) w)).
Proof. unfold onRequest_enter. eff_unfold. simpl. eexists. reflexivity. Qed.

Ltac header_get :=
  repeat (rewrite HeadersFacts.get_set_ne by (by vm_compute));
  apply HeadersFacts.get_set_eq.

Lemma set_header_mutable name value r w :
  headers_guard r = guard_response →
  set_header name value r w = (Normal (put_header name value r), w).
Proof. intros Hguard. unfold set_header. by rewrite Hguard. Qed.

Lemma set_header_immutable name value r w :
  headers_guard r = guard_immutable →
  set_header name value r w = (Throw immutable_headers_error, w).
Proof. intros Hguard. unfold set_header. by rewrite Hguard. Qed.

(** The eight [headers.set] calls of lines 16-38 on a response whose headers
    can be changed, for the clock reading [scan]. *)
Lemma onRequest_decorate_mutable context startTime response w1 :
  headers_guard response = guard_response →
  ∃ line,
    onRequest_decorate context startTime response w1 =
    (Normal
       (put_header "X-Security-Scan" (pretty (clock w1 (reads w1)))
          (put_header "X-Powered-By-LogsGonstr" "Secure-Portfolio-v1.0"
             (put_header "Permissions-Policy" PERMISSIONS_POLICY
                (put_header "Referrer-Policy" "strict-origin-when-cross-origin"
                   (put_header "X-XSS-Protection" "1; mode=block"
                      (put_header "X-Frame-Options" "DENY"
                         (put_header "X-Content-Type-Options" "nosniff"
                            (put_header "Content-Security-Policy" CSP response)))))))),
     with_console (console w1 ++ [line]) (with_reads (S (S (S (reads w1)))) w1)) ∧
    console_method line = console_log.
Proof.
  intros Hguard. unfold onRequest_decorate.
  do 7 (unfold mbind at 1; unfold Eff_bind at 1;
        rewrite set_header_mutable by done).
  unfold mbind at 1. unfold Eff_bind at 1. unfold Date_now at 1.
  unfold mbind at 1. unfold Eff_bind at 1. rewrite set_header_mutable by done.
  eff_unfold. simpl. eexists. split; reflexivity.
Qed.

(** On a response whose headers cannot be changed the first [headers.set]
    throws; nothing has been read or written by then. *)
Lemma onRequest_decorate_immutable context startTime response w1 :
  headers_guard response = guard_immutable →
  onRequest_decorate context startTime response w1 = (Throw immutable_headers_error, w1).
Proof.
  intros Hguard. unfold onRequest_decorate.
  unfold mbind at 1. unfold Eff_bind at 1. by rewrite set_header_immutable.
Qed.

(** The response [onRequest] builds from the one the handler returned, when
    its headers can be changed. *)
Lemma onRequest_success_eq context next w response w1 :
  next (onRequest_enter context w).2 = (Normal response, w1) →
  headers_guard response = guard_response →
  ∃ line,
    onRequest context next w =
    (Normal
       (put_header "X-Security-Scan" (pretty (clock w1 (reads w1)))
          (put_header "X-Powered-By-LogsGonstr" "Secure-Portfolio-v1.0"
             (put_header "Permissions-Policy" PERMISSIONS_POLICY
                (put_header "Referrer-Policy" "strict-origin-when-cross-origin"
                   (put_header "X-XSS-Protection" "1; mode=block"
                      (put_header "X-Frame-Options" "DENY"
                         (put_header "X-Content-Type-Options" "nosniff"
                            (put_header "Content-Security-Policy" CSP response)))))))),
     with_console (console w1 ++ [line]) (with_reads (S (S (S (reads w1)))) w1)) ∧
    console_method line = console_log.
Proof.
  intros Hnext Hguard. unfold onRequest.
  destruct (onRequest_enter_spec context w) as (line0 & Henter).
  rewrite Henter in Hnext. simpl in Hnext.
  unfold mbind at 1. unfold Eff_bind at 1. rewrite Henter.
  unfold try_catch. unfold mbind at 1. unfold Eff_bind at 1. rewrite Hnext.
  destruct (onRequest_decorate_mutable context (clock w (reads w)) response w1 Hguard)
    as (line & -> & Hline).
  by exists line.
Qed.

(** The response [onRequest] builds when the handler returned a response
    whose headers cannot be changed: the throw of [headers.set] is caught and
    the answer is the 500 response. *)
Lemma onRequest_immutable_eq context next w response w1 :
  next (onRequest_enter context w).2 = (Normal response, w1) →
  headers_guard response = guard_immutable →
  onRequest context next w =
  (Normal {| status := 500;
             body := Text "Internal Server Error";
             headers := [("content-type", "text/plain");
                         ("x-error-id", "LogsGonstr-" +:+ pretty (clock w1 (S (reads w1))));
                         ("x-content-type-options", "nosniff");
                         ("x-frame-options", "DENY")];
             headers_guard := guard_response |},
   with_console
     (console w1 ++
      [mkConsoleCall console_error
         ("[LogsGonstr-Security-ERROR] " +:+ JS.toISOString (clock w1 (reads w1)) +:+
          " - Error: " +:+ immutable_headers_error +:+ " - IP: " +:+
          JS.or_str (Some (clientAddress context)) "unknown" +:+
          " - Path: " +:+ pathname (url context)) []])
     (with_reads (S (S (reads w1))) w1)).
Proof.
  intros Hnext Hguard. unfold onRequest.
  destruct (onRequest_enter_spec context w) as (line0 & Henter).
  rewrite Henter in Hnext. simpl in Hnext.
  unfold mbind at 1. unfold Eff_bind at 1. rewrite Henter.
  unfold try_catch. unfold mbind at 1. unfold Eff_bind at 1. rewrite Hnext.
  rewrite onRequest_decorate_immutable by done.
  unfold onRequest_catch. eff_unfold. simpl. reflexivity.
Qed.

(** C6, as the code has it.  When the downstream handler returns a response
    whose headers can be changed, [onRequest] returns that response (same
    status and body) with the eight headers it sets: seven with fixed values
    and [X-Security-Scan] with the decimal reading of [Date.now()] taken after
    the handler returned.  When the handler returns a response whose headers
    cannot be changed, the first [headers.set] throws inside the [try] and
    [onRequest] answers with the 500 response, which has none of the headers
    that only the success path sets. *)
Theorem onRequest_success_sets_security_headers
    (context : APIContext) (next : Eff Response) (w : World)
    (response : Response) (w1 : World) :
  next (onRequest_enter context w).2 = (Normal response, w1) →
  (headers_guard response = guard_response →
   ∃ decorated w',
     onRequest context next w = (Normal decorated, w') ∧
     status decorated = status response ∧
     body decorated = body response ∧
     Headers.get "Content-Security-Policy" (headers decorated) =
       Some ("default-src 'self'; img-src 'self' https: data: blob:; " +:+
             "style-src 'self' 'unsafe-inline' fonts.googleapis.com; " +:+
             "font-src 'self' fonts.gstatic.com; script-src 'self' 'unsafe-inline'; " +:+
             "connect-src 'self' vercel.live; frame-ancestors 'none'; base-uri 'self'") ∧
     Headers.get "X-Content-Type-Options" (headers decorated) = Some "nosniff" ∧
     Headers.get "X-Frame-Options" (headers decorated) = Some "DENY" ∧
     Headers.get "X-XSS-Protection" (headers decorated) = Some "1; mode=block" ∧
     Headers.get "Referrer-Policy" (headers decorated) =
       Some "strict-origin-when-cross-origin" ∧
     Headers.get "Permissions-Policy" (headers decorated) =
       Some ("geolocation=(), microphone=(), camera=(), payment=(), usb=(), " +:+
             "magnetometer=(), gyroscope=()") ∧
     Headers.get "X-Powered-By-LogsGonstr" (headers decorated) =
       Some "Secure-Portfolio-v1.0" ∧
     Headers.get "X-Security-Scan" (headers decorated) =
       Some (pretty (clock w1 (reads w1)))) ∧
  (headers_guard response = guard_immutable →
   ∃ errorResponse w',
     onRequest context next w = (Normal errorResponse, w') ∧
     status errorResponse = 500%Z ∧
     body errorResponse = Text "Internal Server Error" ∧
     Headers.get "X-Content-Type-Options" (headers errorResponse) = Some "nosniff" ∧
     Headers.get "X-Frame-Options" (headers errorResponse) = Some "DENY" ∧
     Forall (λ name, Headers.get name (headers errorResponse) = None)
       ["Content-Security-Policy"; "X-XSS-Protection"; "Referrer-Policy";
        "Permissions-Policy"; "X-Powered-By-LogsGonstr"; "X-Security-Scan"]).
Proof.
  intros Hnext. split; intros Hguard.
  - destruct (onRequest_success_eq _ _ _ _ _ Hnext Hguard) as (line & -> & _).
    eexists _, _. split; [reflexivity |]. simpl.
    split_and!; [done | done | header_get ..].
  - rewrite (onRequest_immutable_eq _ _ _ _ _ Hnext Hguard).
    eexists _, _. split; [reflexivity |]. simpl.
    split_and!; try reflexivity. repeat constructor.
Qed.

Lemma onRequest_success_sets_security_headers_witness :
  (∃ decorated w',
     onRequest sample_context (mret bare_response) sample_world = (Normal decorated, w') ∧
     status decorated = 200%Z ∧
     Headers.get "X-Frame-Options" (headers decorated) = Some "DENY" ∧
     Headers.get "X-Security-Scan" (headers decorated) = Some "1768867200500") ∧
  (∃ errorResponse w',
     onRequest sample_context (mret redirect_response) sample_world =
       (Normal errorResponse, w') ∧
     status errorResponse = 500%Z ∧
     Headers.get "Content-Security-Policy" (headers errorResponse) = None).
Proof.
  split.
  - destruct (proj1 (onRequest_success_sets_security_headers sample_context
                       (mret bare_response) sample_world bare_response
                       (onRequest_enter sample_context sample_world).2 eq_refl))
      as (decorated & w' & Hrun & Hstatus & _ & _ & _ & Hframe & _ & _ & _ & _ & Hscan).
    { reflexivity. }
    exists decorated, w'. split_and!; [done | done | done |].
    rewrite Hscan. by vm_compute.
  - destruct (proj2 (onRequest_success_sets_security_headers sample_context
                       (mret redirect_response) sample_world redirect_response
                       (onRequest_enter sample_context sample_world).2 eq_refl))
      as (errorResponse & w' & Hrun & Hstatus & _ & _ & _ & Habsent).
    { reflexivity. }
    exists errorResponse, w'. split_and!; [done | done |].
    by apply Forall_cons in Habsent as [? _].
Defined.

Lemma get_Some_name name (hs : Headers.t) :
  is_Some (Headers.get name hs) → Headers.lower name ∈ hs.*1.
Proof.
  unfold Headers.get. intros Hget.
  destruct (filter (Headers.named name) hs) as [| h found] eqn:Hfound.
  { by destruct Hget. }
  assert (Hin : h ∈ filter (Headers.named name) hs) by (rewrite Hfound; left).
  apply list_elem_of_filter in Hin as [Hnamed Hin].
  rewrite <- Hnamed. by apply list_elem_of_fmap_2.
Qed.

(** C6, as stated, fails twice.  On the count: on a downstream response
    without headers the decorated response carries eight headers, and no nine
    distinct header names are present on it.  On "every returned response": a
    handler that returns a redirect made by [Response.redirect] returns
    successfully, and [onRequest] answers 500 without the security policy, the
    redirect being lost. *)
Lemma onRequest_success_eight_headers_not_nine :
  (∃ decorated,
     (onRequest sample_context (mret bare_response) sample_world).1 = Normal decorated ∧
     (headers decorated).*1 =
       ["content-security-policy"; "x-content-type-options"; "x-frame-options";
        "x-xss-protection"; "referrer-policy"; "permissions-policy";
        "x-powered-by-logsgonstr"; "x-security-scan"] ∧
     ¬ ∃ names : list string,
         NoDup (Headers.lower <$> names) ∧ length names = 9 ∧
         Forall (λ n, is_Some (Headers.get n (headers decorated))) names) ∧
  (∃ answered,
     ((mret redirect_response : Eff Response)
        (onRequest_enter sample_context sample_world).2).1 = Normal redirect_response ∧
     (onRequest sample_context (mret redirect_response) sample_world).1 = Normal answered ∧
     status answered = 500%Z ∧
     Headers.get "Content-Security-Policy" (headers answered) = None ∧
     Headers.get "Location" (headers answered) = None).
Proof.
  split.
  - eexists. split; [vm_compute; reflexivity |].
    match goal with |- ?names = _ ∧ _ => set (present := names) end.
    assert (Hnames : length present = 8) by (by vm_compute).
    split; [by vm_compute |].
    intros (names & Hdistinct & Hnine & Hpresent).
    assert (Hle : length (Headers.lower <$> names) ≤ length present).
    { apply submseteq_length, NoDup_submseteq; [done |].
      intros name' (name & -> & Hin)%list_elem_of_fmap.
      apply get_Some_name. by eapply Forall_forall in Hpresent. }
    rewrite Hnames, length_fmap, Hnine in Hle. lia.
  - eexists. split; [reflexivity |]. split; [vm_compute; reflexivity |].
    by vm_compute.
Qed.

(** C7. When the downstream handler throws, [onRequest] returns a response
    with status 500 and the text/plain body "Internal Server Error", whose
    headers are exactly Content-Type, X-Error-ID (made from a clock reading),
    X-Content-Type-Options: nosniff and X-Frame-Options: DENY; none of the
    other headers of the success path is on it. *)
Theorem onRequest_failure_generic_500
    (context : APIContext) (next : Eff Response) (w : World) (error : string) (w1 : World) :
  next (onRequest_enter context w).2 = (Throw error, w1) →
  ∃ errorResponse w',
    onRequest context next w = (Normal errorResponse, w') ∧
    status errorResponse = 500%Z ∧
    body errorResponse = Text "Internal Server Error" ∧
    headers errorResponse =
      [("content-type", "text/plain");
       ("x-error-id", "LogsGonstr-" +:+ pretty (clock w1 (S (reads w1))));
       ("x-content-type-options", "nosniff");
       ("x-frame-options", "DENY")] ∧
    Headers.get "Content-Type" (headers errorResponse) = Some "text/plain" ∧
    Headers.get "X-Error-ID" (headers errorResponse) =
      Some ("LogsGonstr-" +:+ pretty (clock w1 (S (reads w1)))) ∧
    Headers.get "X-Content-Type-Options" (headers errorResponse) = Some "nosniff" ∧
    Headers.get "X-Frame-Options" (headers errorResponse) = Some "DENY" ∧
    Forall (λ name, Headers.get name (headers errorResponse) = None)
      ["Content-Security-Policy"; "X-XSS-Protection"; "Referrer-Policy";
       "Permissions-Policy"; "X-Powered-By-LogsGonstr"; "X-Security-Scan"].
Proof.
  intros Hnext. unfold onRequest.
  destruct (onRequest_enter_spec context w) as (line & Henter).
  rewrite Henter in Hnext. simpl in Hnext.
  unfold mbind at 1. unfold Eff_bind at 1. rewrite Henter.
  unfold try_catch. unfold mbind at 1. unfold Eff_bind at 1. rewrite Hnext.
  unfold onRequest_catch. eff_unfold. simpl.
  eexists _, _. split; [reflexivity |]. simpl.
  split_and!; try reflexivity.
  repeat constructor.
Qed.

Lemma onRequest_failure_generic_500_witness :
  ∃ errorResponse w',
    onRequest sample_context (throw "TypeError: boom") sample_world =
      (Normal errorResponse, w') ∧
    status errorResponse = 500%Z ∧
    body errorResponse = Text "Internal Server Error" ∧
    headers errorResponse =
      [("content-type", "text/plain"); ("x-error-id", "LogsGonstr-1768867200750");
       ("x-content-type-options", "nosniff"); ("x-frame-options", "DENY")].
Proof.
  destruct (onRequest_failure_generic_500 sample_context (throw "TypeError: boom")
              sample_world "TypeError: boom" (onRequest_enter sample_context sample_world).2)
    as (errorResponse & w' & Hrun & Hstatus & Hbody & Hheaders & _).
  { reflexivity. }
  exists errorResponse, w'. split_and!; [done | done | done |].
  rewrite Hheaders. by vm_compute.
Defined.

(** ** The status endpoint *)

Lemma last_push_evict {A} n (l : list A) x : 0 < n → last (push_evict n l x) = Some x.
Proof.
  intros Hn. unfold push_evict. rewrite length_app. simpl.
  case_decide; [| apply last_snoc].
  destruct l as [| y l]; simpl in *; [lia | apply last_snoc].
Qed.

(** A [log] call ends normally and leaves its entry last in the array. *)
Lemma log_records lvl ev d r w :
  ∃ e w',
    log lvl ev d r w = (Normal tt, w') ∧
    logs w' = push_evict maxLogs (logs w) e ∧
    last (logs w') = Some e ∧
    level e = lvl ∧ event e = ev ∧
    console w' = console w ++ tier_line e ::
                   (if bool_decide (lvl = CRITICAL) && window_defined (globals w)
                    then [alert_line e] else []) ∧
    details e =
      <["buildTime" := JS.Str (match JS.truthy (Some (__BUILD_TIME__ (globals w))) with
                               | Some s => s
                               | None => JS.toISOString (clock w (S (reads w)))
                               end)]>
        (<["buildVersion" := JS.Str (JS.or_str (Some (__VERSION__ (globals w))) "1.0.0-LogsGonstr")]>
           (default ∅ d)).
Proof.
  destruct (new_logEntry_spec lvl ev d r w) as (e & k & He & _ & Hlvl & Hev & Hdetails & _).
  destruct (log_spec _ _ _ _ _ _ _ He) as (w' & Hlog & Hlogs & Hconsole & _).
  exists e, w'. simpl in Hlogs, Hconsole. rewrite Hlvl in Hconsole.
  split_and!; [done | done | | done | done | done | done].
  rewrite Hlogs. apply last_push_evict, maxLogs_pos.
Qed.

(** C8. With the token equal to [ADMIN_TOKEN], [GET] records an INFO entry and
    answers 200 with a JSON body made of the report of the log (as it is after
    that entry) and the status envelope, so with a [summary] key; with any
    other token, or none, it records a WARN entry and answers 401 with the body
    "Unauthorized" and the header [X-Security-Alert]. *)
Theorem GET_token_gate (context : APIContext) (w : World) :
  let token := searchParams_get "token" (request_url (request context)) in
  (token = Some ADMIN_TOKEN →
   ∃ e wl report wr response w' doc,
     GET context w = (Normal response, w') ∧
     logs wl = push_evict maxLogs (logs w) e ∧ last (logs wl) = Some e ∧
     level e = INFO ∧ event e = "SECURITY_SCAN" ∧
     generateSecurityReport wl = (Normal report, wr) ∧
     logs w' = logs wl ∧
     status response = 200%Z ∧
     body response = JSONText (JS.Obj doc) ∧
     doc = Report_properties report ∪ status_envelope (JS.toISOString (clock wr (reads wr))) ∧
     doc !! "summary" = Some (JS.Obj ((λ n, JS.Num (Z.of_nat n)) <$> summary report)) ∧
     doc !! "recentEvents" = Some (JS.Arr (SecurityLog_json <$> recentEvents report)) ∧
     doc !! "criticalEvents" = Some (JS.Arr (SecurityLog_json <$> criticalEvents report)) ∧
     doc !! "status" = Some (JS.Str "secure") ∧
     doc !! "version" = Some (JS.Str "1.0.0-LogsGonstr") ∧
     doc !! "environment" = Some (JS.Str "production") ∧
     Headers.get "Content-Type" (headers response) = Some "application/json") ∧
  (token ≠ Some ADMIN_TOKEN →
   ∃ e response w',
     GET context w = (Normal response, w') ∧
     logs w' = push_evict maxLogs (logs w) e ∧ last (logs w') = Some e ∧
     level e = WARN ∧ event e = "SUSPICIOUS_ACCESS" ∧
     status response = 401%Z ∧
     body response = Text "Unauthorized" ∧
     Headers.get "Content-Type" (headers response) = Some "text/plain" ∧
     Headers.get "X-Security-Alert" (headers response) = Some "Invalid Token").
Proof.
  intros token. split; intros Htoken.
  - unfold GET. fold token.
    destruct (decide (token ≠ Some ADMIN_TOKEN)) as [Hne | _]; [done |].
    set (d := Some (<["admin" := JS.Bool true]> _)).
    destruct (log_records INFO SECURITY_EVENTS.SECURITY_SCAN d (Some (request context)) w)
      as (e & wl & Hlog & Hpush & Hlast & Hlvl & Hev & _).
    destruct (generateSecurityReport_spec wl) as (report & k & Hreport & _).
    unfold mbind at 1. unfold Eff_bind at 1. rewrite Hlog.
    unfold mbind at 1. unfold Eff_bind at 1. rewrite Hreport.
    eff_unfold. simpl.
    eexists e, wl, report, _, _, _, _.
    split_and!; try done.
    all: unfold Report_properties, status_envelope; by simplify_map_eq.
  - unfold GET. fold token.
    destruct (decide (token ≠ Some ADMIN_TOKEN)) as [_ | Heq]; [| done].
    set (d := Some (<["endpoint" := JS.Str "/api/security-status"]> _)).
    destruct (log_records WARN SECURITY_EVENTS.SUSPICIOUS_ACCESS d (Some (request context)) w)
      as (e & w' & Hlog & Hpush & Hlast & Hlvl & Hev & _).
    unfold mbind at 1. unfold Eff_bind at 1. rewrite Hlog.
    eexists e, _, w'. split; [reflexivity |]. by split_and!.
Qed.

Lemma GET_token_gate_witness :
  (∃ response w',
     GET (status_context [("token", "LogsGonstr-Admin-2026")]) sample_world =
       (Normal response, w') ∧
     status response = 200%Z ∧ level <$> logs w' = [INFO]) ∧
  (∃ response w',
     GET (status_context [("token", "letmein")]) sample_world = (Normal response, w') ∧
     status response = 401%Z ∧ body response = Text "Unauthorized" ∧
     level <$> logs w' = [WARN]) ∧
  (∃ response w',
     GET (status_context []) sample_world = (Normal response, w') ∧
     status response = 401%Z ∧ body response = Text "Unauthorized" ∧
     level <$> logs w' = [WARN]).
Proof.
  assert (Hfirst : ∀ e : SecurityLog,
            push_evict maxLogs (logs sample_world) e = [e]).
  { intros e. change (logs sample_world) with (@nil SecurityLog).
    by rewrite push_evict_below by (unfold maxLogs; simpl; lia). }
  split_and!.
  - destruct (proj1 (GET_token_gate (status_context [("token", "LogsGonstr-Admin-2026")])
                       sample_world))
      as (e & wl & report & wr & response & w' & doc & Hrun & Hpush & _ & Hlvl & _ & _ &
          Hlogs & Hstatus & _).
    { reflexivity. }
    exists response, w'. split_and!; [done | done |].
    rewrite Hlogs, Hpush, Hfirst. simpl. by rewrite Hlvl.
  - destruct (proj2 (GET_token_gate (status_context [("token", "letmein")]) sample_world))
      as (e & response & w' & Hrun & Hpush & _ & Hlvl & _ & Hstatus & Hbody & _).
    { by vm_compute. }
    exists response, w'. split_and!; [done | done | done |].
    rewrite Hpush, Hfirst. simpl. by rewrite Hlvl.
  - destruct (proj2 (GET_token_gate (status_context []) sample_world))
      as (e & response & w' & Hrun & Hpush & _ & Hlvl & _ & Hstatus & Hbody & _).
    { by vm_compute. }
    exists response, w'. split_and!; [done | done | done |].
    rewrite Hpush, Hfirst. simpl. by rewrite Hlvl.
Defined.

(** ** [log]: no error path, the critical alert, the injected details *)

(** C9, against the claim as stated.  On the server there is no [window]:
    recording a CRITICAL event writes its console line and nothing else, the
    alert is not dispatched. *)
Lemma log_critical_without_window_no_alert :
  let w' := (log CRITICAL SECURITY_EVENTS.SYSTEM_ERROR None None sample_world).2 in
  window_defined (globals sample_world) = false ∧
  message <$> console w' =
    ["🚨 [LogsGonstr-CRITICAL] 2026-01-20T00:00:00.000Z - SYSTEM_ERROR"] ∧
  ¬ ∃ e, alert_line e ∈ console w'.
Proof.
  intros w'.
  assert (Hmessages : message <$> console w' =
            ["🚨 [LogsGonstr-CRITICAL] 2026-01-20T00:00:00.000Z - SYSTEM_ERROR"])
    by (by vm_compute).
  split_and!; [done | done |].
  intros (e & Hin).
  apply (list_elem_of_fmap_2 message) in Hin. rewrite Hmessages in Hin.
  apply list_elem_of_singleton in Hin. discriminate Hin.
Qed.

(** C9, as the code has it.  [log] ends normally for every level, event name,
    details and request, in every world; it writes the console line of the
    level and, for a CRITICAL event when a global [window] exists, the alert
    line of [sendCriticalAlert].  [sendCriticalAlert] is its dispatch run
    inside the [try]/[catch] frame of an [async] function: it never throws and
    its promise always resolves, and whatever a dispatch in that frame does, a
    throw is caught and written to [console.error]. *)
Theorem log_always_succeeds_alert_needs_window
    (lvl : Level) (ev : string) (d : option (gmap string JS.Value))
    (r : option Request) (w : World) :
  (∃ e w',
     log lvl ev d r w = (Normal tt, w') ∧
     last (logs w') = Some e ∧
     console w' = console w ++ tier_line e ::
                    (if bool_decide (lvl = CRITICAL) && window_defined (globals w)
                     then [alert_line e] else [])) ∧
  (∀ entry v,
     sendCriticalAlert entry v =
     (Normal (Resolved tt), with_console (console v ++ [alert_line entry]) v)) ∧
  (∀ entry,
     sendCriticalAlert entry =
     async (try_catch (sendCriticalAlert_try entry) sendCriticalAlert_catch) ∧
     sendCriticalAlert entry = sendCriticalAlert_frame (sendCriticalAlert_try entry)) ∧
  (∀ (dispatch : Eff unit) v,
     sendCriticalAlert_frame dispatch v =
     match dispatch v with
     | (Normal _, v1) => (Normal (Resolved tt), v1)
     | (Throw error, v1) =>
         (Normal (Resolved tt),
          with_console
            (console v1 ++ [mkConsoleCall console_error
                              "[LogsGonstr] Failed to send critical alert:"
                              [ErrorArg error]]) v1)
     end).
Proof.
  split_and!.
  - destruct (log_records lvl ev d r w) as (e & w' & Hlog & _ & Hlast & _ & _ & Hconsole & _).
    by exists e, w'.
  - reflexivity.
  - intros entry. unfold sendCriticalAlert. split.
    + unfold sendCriticalAlert_frame.
      lazymatch goal with |- ?frame = ?frame => reflexivity end.
    + lazymatch goal with |- ?frame = ?frame => reflexivity end.
  - intros dispatch v. unfold sendCriticalAlert_frame, async, try_catch.
    by destruct (dispatch v) as [[[] | error] v1].
Qed.

(** C10. In the stored entry the keys [buildVersion] and [buildTime] hold the
    build constants, whatever the caller put under these keys; every other
    key holds what the caller gave (and is absent when the caller gave none). *)
Theorem log_injected_details_take_precedence
    (lvl : Level) (ev : string) (d : option (gmap string JS.Value)) (r : option Request)
    (build_ms : Z) (window : bool) (clk : nat → Z) (n : nat)
    (out : list ConsoleCall) (stored : list SecurityLog) :
  let w := mkWorld (astro_define build_ms window) clk n out stored in
  ∃ e w',
    log lvl ev d r w = (Normal tt, w') ∧
    last (logs w') = Some e ∧
    details e !! "buildVersion" = Some (JS.Str "1.0.0-LogsGonstr") ∧
    details e !! "buildTime" = Some (JS.Str (JS.toISOString build_ms)) ∧
    ∀ key, key ≠ "buildVersion" → key ≠ "buildTime" →
           details e !! key = default ∅ d !! key.
Proof.
  intros w.
  destruct (log_records lvl ev d r w) as (e & w' & Hlog & _ & Hlast & _ & _ & _ & Hdetails).
  exists e, w'. rewrite Hdetails. simpl.
  split_and!; [done | done | | |].
  - by rewrite lookup_insert_ne, lookup_insert_eq.
  - rewrite lookup_insert_eq. unfold JS.truthy.
    destruct (decide (JS.toISOString build_ms = "")) as [Hempty | _]; [| done].
    by apply toISOString_nonempty in Hempty.
  - intros key Hversion Htime. by rewrite !lookup_insert_ne.
Qed.

Lemma log_injected_details_take_precedence_witness :
  let supplied : gmap string JS.Value :=
    <["buildVersion" := JS.Str "9.9.9"]>
      (<["buildTime" := JS.Str "never"]> (<["user" := JS.Str "alice"]> ∅)) in
  ∃ e w',
    log WARN SECURITY_EVENTS.RATE_LIMIT_HIT (Some supplied) None sample_world =
      (Normal tt, w') ∧
    last (logs w') = Some e ∧
    details e !! "buildVersion" = Some (JS.Str "1.0.0-LogsGonstr") ∧
    details e !! "buildTime" = Some (JS.Str "2026-01-01T00:00:00.000Z") ∧
    details e !! "user" = Some (JS.Str "alice").
Proof.
  intros supplied.
  destruct (log_injected_details_take_precedence WARN SECURITY_EVENTS.RATE_LIMIT_HIT
              (Some supplied) None 1767225600000 false sample_clock 0 [] [])
    as (e & w' & Hlog & Hlast & Hversion & Htime & Hother).
  exists e, w'. split_and!; [done | done | done | done |].
  rewrite (Hother "user"); [by vm_compute | done | done].
Defined.

(** ** The scenario of the five events *)

Example five_events_recent_three :
  fmap (M := Completion) (fmap (M := list) event)
    (getRecentLogs (Some 3%Z) (run five_events sample_world)).1
  = Normal ["C"; "D"; "E"].
Proof. vm_compute. reflexivity. Qed.

Example five_events_critical :
  fmap (M := Completion) (fmap (M := list) event)
    (getLogsByLevel CRITICAL (Some 10%Z) (run five_events sample_world)).1
  = Normal ["E"].
Proof. vm_compute. reflexivity. Qed.

Example five_events_summary :
  fmap (M := Completion)
    (λ r, (summary r !! "INFO", summary r !! "WARN", summary r !! "ERROR",
           summary r !! "CRITICAL"))
    (generateSecurityReport (run five_events sample_world)).1
  = Normal (Some 2, Some 2, None, Some 1).
Proof. vm_compute. reflexivity. Qed.

Example overflow_keeps_last_thousand :
  let w := run (replicate 1003 (sample_call INFO "tick")) sample_world in
  length (logs w) = 1000 ∧
  timestamp <$> head (logs w) = Some "2026-01-20T00:00:00.750Z".
Proof. vm_compute. done. Qed.

(* ===================================================================== *)
(** * Further properties of the logger                                    *)
(* ===================================================================== *)

(** ** [extractIP] *)

Lemma truthy_nonempty a s : JS.truthy a = Some s → a = Some s ∧ s ≠ "".
Proof.
  unfold JS.truthy. destruct a as [x |]; [| done].
  destruct (decide (x = "")); [done |]. by intros [= <-].
Qed.

Lemma truthy_Some s : s ≠ "" → JS.truthy (Some s) = Some s.
Proof. intros Hs. unfold JS.truthy. by destruct (decide (s = "")). Qed.

Lemma or_opt_nonempty a b : b ≠ Some "" → JS.or_opt a b ≠ Some "".
Proof.
  intros Hb. unfold JS.or_opt.
  destruct (JS.truthy a) as [s |] eqn:Ha; [| done].
  apply truthy_nonempty in Ha as [_ Hs]. congruence.
Qed.

(** X1. [extractIP] gives [undefined] without a request, and never the empty
    string: a header that is present but empty counts as absent. *)
Theorem extractIP_never_empty (request : option Request) :
  extractIP None = None ∧ extractIP request ≠ Some "".
Proof.
  split; [done |]. unfold extractIP. destruct request as [r |]; [| done].
  by repeat apply or_opt_nonempty.
Qed.

(** X2. A non-empty [x-vercel-forwarded-for] wins over [x-real-ip] and
    [x-forwarded-for]; without it a non-empty [x-real-ip] wins over
    [x-forwarded-for]. *)
Theorem extractIP_header_priority (r : Request) (address : string) :
  address ≠ "" →
  (Headers.get "x-vercel-forwarded-for" (request_headers r) = Some address →
   extractIP (Some r) = Some address) ∧
  (JS.truthy (Headers.get "x-vercel-forwarded-for" (request_headers r)) = None →
   Headers.get "x-real-ip" (request_headers r) = Some address →
   extractIP (Some r) = Some address).
Proof.
  intros Haddress. unfold extractIP, JS.or_opt. split.
  - intros ->. by rewrite truthy_Some.
  - intros -> ->. by rewrite truthy_Some.
Qed.

Lemma extractIP_header_priority_witness :
  extractIP (Some (mkRequest "GET" (mkURL "/" [])
                     [("x-forwarded-for", "10.0.0.1, 10.0.0.2");
                      ("x-real-ip", "192.0.2.9");
                      ("x-vercel-forwarded-for", "198.51.100.4")])) = Some "198.51.100.4" ∧
  extractIP (Some (mkRequest "GET" (mkURL "/" [])
                     [("x-forwarded-for", "10.0.0.1, 10.0.0.2");
                      ("x-real-ip", "192.0.2.9");
                      ("x-vercel-forwarded-for", "")])) = Some "192.0.2.9".
Proof.
  split.
  - refine (proj1 (extractIP_header_priority _ "198.51.100.4" _) _);
      [done | by vm_compute].
  - refine (proj2 (extractIP_header_priority _ "192.0.2.9" _) _ _);
      [done | by vm_compute | by vm_compute].
Defined.

Lemma split_comma_head_prefix s : ∃ rest, s = JS.split_comma_head s +:+ rest.
Proof.
  induction s as [| c s [rest IH]]; simpl.
  - by exists "".
  - destruct (decide (c = ","%char)).
    + by eexists.
    + exists rest. change (String c s = String c (JS.split_comma_head s +:+ rest)).
      by f_equal.
Qed.

Lemma split_comma_head_no_comma s :
  ","%char ∉ String.list_ascii_of_string (JS.split_comma_head s).
Proof.
  induction s as [| c s IH]; simpl.
  - apply not_elem_of_nil.
  - destruct (decide (c = ","%char)); simpl.
    + apply not_elem_of_nil.
    + apply not_elem_of_cons. split; [congruence | done].
Qed.

(** X3. When only [x-forwarded-for] is given, [extractIP] gives its first hop:
    the text before the first comma, which has no comma in it; when that text
    is empty (the header is empty or starts with a comma) it gives
    [undefined]. *)
Theorem extractIP_first_forwarded_hop (r : Request) (chain : string) :
  JS.truthy (Headers.get "x-vercel-forwarded-for" (request_headers r)) = None →
  JS.truthy (Headers.get "x-real-ip" (request_headers r)) = None →
  Headers.get "x-forwarded-for" (request_headers r) = Some chain →
  let hop := JS.split_comma_head chain in
  extractIP (Some r) = (if decide (hop = "") then None else Some hop) ∧
  (∃ rest, chain = hop +:+ rest) ∧
  ","%char ∉ String.list_ascii_of_string hop.
Proof.
  intros Hvercel Hreal Hforwarded hop.
  split_and!; [| apply split_comma_head_prefix | apply split_comma_head_no_comma].
  unfold extractIP, JS.or_opt. rewrite Hvercel, Hreal, Hforwarded. simpl.
  unfold JS.truthy. fold hop. by destruct (decide (hop = "")).
Qed.

Lemma extractIP_first_forwarded_hop_witness :
  extractIP (Some (mkRequest "GET" (mkURL "/" [])
                     [("x-forwarded-for", "10.0.0.1, 10.0.0.2")])) = Some "10.0.0.1" ∧
  extractIP (Some (mkRequest "GET" (mkURL "/" [])
                     [("x-forwarded-for", ",10.0.0.2")])) = None.
Proof.
  split.
  - apply (extractIP_first_forwarded_hop _ "10.0.0.1, 10.0.0.2"); by vm_compute.
  - apply (extractIP_first_forwarded_hop _ ",10.0.0.2"); by vm_compute.
Defined.

(** ** What [log] stores *)

Lemma new_logEntry_request_fields lvl ev d r w :
  ∃ e w1,
    new_logEntry lvl ev d r w = (Normal e, w1) ∧
    ip e = extractIP r ∧
    userAgent e = JS.or_opt (r ≫= λ q, Headers.get "user-agent" (request_headers q)) None ∧
    endpoint e = (λ q, pathname (request_url q)) <$> r.
Proof.
  unfold new_logEntry. eff_unfold. simpl.
  destruct (JS.truthy (Some (__BUILD_TIME__ (globals w)))); simpl;
    eexists _, _; (split; [reflexivity | done]).
Qed.

Lemma log_stores_entry lvl ev d r w e w1 :
  new_logEntry lvl ev d r w = (Normal e, w1) →
  ∃ w', log lvl ev d r w = (Normal tt, w') ∧ last (logs w') = Some e.
Proof.
  intros He. destruct (log_spec _ _ _ _ _ _ _ He) as (w' & Hlog & Hlogs & _).
  exists w'. split; [done |]. rewrite Hlogs. apply last_push_evict, maxLogs_pos.
Qed.

(** X4. The request fields of a stored entry are set only when [log] is given the
    request: without it [ip], [userAgent] and [endpoint] are all undefined;
    with it [endpoint] is the path of the request URL (without the query),
    [ip] is what [extractIP] finds, and [userAgent] is the user-agent header
    when there is a non-empty one. *)
Theorem log_request_fields
    (lvl : Level) (ev : string) (d : option (gmap string JS.Value)) (w : World) :
  (∃ e w', log lvl ev d None w = (Normal tt, w') ∧ last (logs w') = Some e ∧
           ip e = None ∧ userAgent e = None ∧ endpoint e = None) ∧
  (∀ r, ∃ e w', log lvl ev d (Some r) w = (Normal tt, w') ∧ last (logs w') = Some e ∧
                endpoint e = Some (pathname (request_url r)) ∧
                ip e = extractIP (Some r) ∧
                userAgent e = JS.truthy (Headers.get "user-agent" (request_headers r)) ∧
                userAgent e ≠ Some "").
Proof.
  split.
  - destruct (new_logEntry_request_fields lvl ev d None w)
      as (e & w1 & He & Hip & Hua & Hendpoint).
    destruct (log_stores_entry _ _ _ _ _ _ _ He) as (w' & Hlog & Hlast).
    by exists e, w'.
  - intros r.
    destruct (new_logEntry_request_fields lvl ev d (Some r) w)
      as (e & w1 & He & Hip & Hua & Hendpoint).
    destruct (log_stores_entry _ _ _ _ _ _ _ He) as (w' & Hlog & Hlast).
    exists e, w'. split_and!; [done | done | done | done | |].
    + rewrite Hua. simpl. unfold JS.or_opt.
      by destruct (JS.truthy (Headers.get "user-agent" (request_headers r))).
    + rewrite Hua. by apply or_opt_nonempty.
Qed.

(** ** Timestamps follow the clock *)

Lemma new_logEntry_reads_once lvl ev d r w :
  __BUILD_TIME__ (globals w) ≠ "" →
  ∃ e, new_logEntry lvl ev d r w = (Normal e, with_reads (S (reads w)) w) ∧
       timestamp e = JS.toISOString (clock w (reads w)).
Proof.
  intros Hbuilt. unfold new_logEntry. eff_unfold. simpl.
  rewrite (truthy_Some _ Hbuilt). by eexists.
Qed.

Lemma call_reads_once c w :
  __BUILD_TIME__ (globals w) ≠ "" →
  ∃ e w1 w', call_entry c w = (Normal e, w1) ∧ call c w = (Normal tt, w') ∧
             timestamp e = JS.toISOString (clock w (reads w)) ∧
             reads w' = S (reads w) ∧ clock w' = clock w ∧ globals w' = globals w.
Proof.
  intros Hbuilt. unfold call, call_entry.
  destruct (new_logEntry_reads_once (call_level c) (call_event c) (call_details c)
              (call_request c) w Hbuilt) as (e & He & Hts).
  destruct (log_spec _ _ _ _ _ _ _ He) as (w' & Hlog & _ & _ & Hreads & Hclock & Hglobals).
  by exists e, (with_reads (S (reads w)) w), w'.
Qed.

Lemma recorded_clock_readings calls : ∀ w,
  __BUILD_TIME__ (globals w) ≠ "" →
  timestamp <$> recorded calls w =
  (λ k, JS.toISOString (clock w k)) <$> seq (reads w) (length calls).
Proof.
  induction calls as [| c calls IH]; intros w Hbuilt; [done |]. simpl.
  destruct (call_reads_once c w Hbuilt)
    as (e & w1 & w' & -> & -> & Hts & Hreads & Hclock & Hglobals). simpl.
  rewrite IH by (by rewrite Hglobals). by rewrite Hts, Hreads, Hclock.
Qed.

Lemma fmap_last_n {A B} (f : A → B) n (l : list A) : f <$> last_n n l = last_n n (f <$> l).
Proof. unfold last_n. by rewrite fmap_drop, length_fmap. Qed.

(** X5. In a build made by astro.config.mjs every [log] call reads the clock once:
    the k-th call stamps its entry with the k-th reading, so the stored
    timestamps are the last 1000 readings in the order they were taken
    (insertion order is the order of the clock). *)
Theorem stored_timestamps_follow_clock
    (build_ms : Z) (window : bool) (clk : nat → Z) (calls : list LogCall) :
  let w0 := initial_world (astro_define build_ms window) clk in
  timestamp <$> recorded calls w0 =
    (λ k, JS.toISOString (clk k)) <$> seq 0 (length calls) ∧
  timestamp <$> logs (run calls w0) =
    last_n maxLogs ((λ k, JS.toISOString (clk k)) <$> seq 0 (length calls)) ∧
  reads (run calls w0) = length calls.
Proof.
  intros w0.
  assert (Hbuilt : __BUILD_TIME__ (globals w0) ≠ "") by apply toISOString_nonempty.
  assert (Hrecorded := recorded_clock_readings calls w0 Hbuilt).
  split_and!; [done | |].
  - rewrite (run_logs_history calls w0 []) by done. simpl.
    by rewrite fmap_last_n, Hrecorded.
  - assert (Hreads : ∀ cs w, __BUILD_TIME__ (globals w) ≠ "" →
                            reads (run cs w) = reads w + length cs).
    { clear. induction cs as [| c cs IH]; intros w Hbuilt; [simpl; lia |].
      rewrite run_cons.
      destruct (call_reads_once c w Hbuilt) as (e & w1 & w' & _ & -> & _ & Hr & _ & Hg).
      simpl. rewrite IH by (by rewrite Hg). rewrite Hr. simpl. lia. }
    by rewrite Hreads.
Qed.

(** ** Retention *)

Lemma recorded_app calls1 : ∀ calls2 w,
  recorded (calls1 ++ calls2) w = recorded calls1 w ++ recorded calls2 (run calls1 w).
Proof.
  induction calls1 as [| c calls1 IH]; intros calls2 w; [done |].
  rewrite <- app_comm_cons, run_cons. simpl.
  destruct (call_spec c w) as (e & w1 & w' & -> & _). simpl. by rewrite IH.
Qed.

Lemma last_n_last_n {A} n m (l : list A) : n ≤ m → last_n n (last_n m l) = last_n n l.
Proof.
  intros Hnm. unfold last_n. rewrite length_drop, drop_drop. f_equal. lia.
Qed.

(** X6. An entry stays in the log while fewer than 1000 entries are recorded after
    it: whatever came before, it is still stored after up to 999 more calls. *)
Theorem recorded_entry_retained
    (g : Globals) (clk : nat → Z) (before : list LogCall) (c : LogCall)
    (after : list LogCall) :
  length after < maxLogs →
  ∃ e w1,
    call_entry c (run before (initial_world g clk)) = (Normal e, w1) ∧
    e ∈ logs (run (before ++ c :: after) (initial_world g clk)).
Proof.
  intros Hafter. set (w0 := initial_world g clk).
  destruct (call_spec c (run before w0)) as (e & w1 & w' & He & _ & _ & _ & Hcall & _).
  exists e, w1. split; [done |].
  rewrite (run_logs_history _ w0 []) by done. simpl.
  rewrite recorded_app. simpl. rewrite He.
  unfold last_n. rewrite length_app, length_cons, !recorded_length.
  rewrite drop_app_le by (rewrite recorded_length; lia).
  apply elem_of_app. right. left.
Qed.

Lemma recorded_entry_retained_witness :
  "first" ∈ event <$> logs (run [sample_call INFO "first"; sample_call WARN "later";
                                  sample_call WARN "later"] sample_world).
Proof.
  destruct (recorded_entry_retained sample_globals sample_clock []
              (sample_call INFO "first")
              [sample_call WARN "later"; sample_call WARN "later"])
    as (e & w1 & He & Hin).
  { unfold maxLogs. simpl. lia. }
  assert (Hev : event e = "first").
  { assert (Hfst : (call_entry (sample_call INFO "first") sample_world).1 = Normal e)
      by exact (f_equal fst He).
    vm_compute in Hfst. by injection Hfst as <-. }
  apply (list_elem_of_fmap_2 event) in Hin. rewrite Hev in Hin. exact Hin.
Defined.

(** X7. After any calls from the empty log, [getRecentLogs(n)] with
    [1 <= n <= 1000] gives the [n] entries recorded last (all of them when
    fewer were recorded): eviction never takes an entry that is among the
    last [n]. *)
Theorem getRecentLogs_most_recently_recorded
    (g : Globals) (clk : nat → Z) (calls : list LogCall) (n : Z) :
  (0 < n)%Z → (n ≤ Z.of_nat maxLogs)%Z →
  let w := run calls (initial_world g clk) in
  getRecentLogs (Some n) w =
  (Normal (last_n (Z.to_nat n) (recorded calls (initial_world g clk))), w).
Proof.
  intros Hpos Hcap w. rewrite getRecentLogs_positive by done.
  unfold w. rewrite (run_logs_history calls _ []) by done. simpl.
  rewrite last_n_last_n by lia. done.
Qed.

Lemma getRecentLogs_most_recently_recorded_witness :
  fmap (M := Completion) (fmap (M := list) event)
    (getRecentLogs (Some 2%Z) (run five_events sample_world)).1 = Normal ["D"; "E"].
Proof.
  assert (Hrecent := getRecentLogs_most_recently_recorded sample_globals sample_clock
                       five_events 2).
  cbv zeta in Hrecent. fold sample_world in Hrecent.
  rewrite Hrecent; [by vm_compute | lia | unfold maxLogs; lia].
Defined.

(** ** The queries, at every limit *)

(** X8. With a limit of at least one [getRecentLogs] gives the last [limit]
    stored entries in stored order: [min(limit, stored)] of them, the whole
    array when the limit reaches the stored count; without an argument the
    limit is 50.  The log is left as it was. *)
Theorem getRecentLogs_last_entries (n : Z) (w : World) :
  (0 < n)%Z →
  ∃ out,
    getRecentLogs (Some n) w = (Normal out, w) ∧
    out = last_n (Z.to_nat n) (logs w) ∧
    out `suffix_of` logs w ∧
    length out = Z.to_nat n `min` length (logs w) ∧
    (length (logs w) ≤ Z.to_nat n → out = logs w) ∧
    getRecentLogs None w = getRecentLogs (Some 50%Z) w.
Proof.
  intros Hn. exists (last_n (Z.to_nat n) (logs w)).
  split_and!; [by apply getRecentLogs_positive | done | apply last_n_suffix | | |].
  - rewrite length_last_n. lia.
  - intros Hall. by apply last_n_all.
  - reflexivity.
Qed.

Lemma getRecentLogs_last_entries_witness :
  fmap (M := Completion) (fmap (M := list) event)
    (getRecentLogs (Some 7%Z) (run five_events sample_world)).1
  = Normal ["A"; "B"; "C"; "D"; "E"].
Proof.
  destruct (getRecentLogs_last_entries 7 (run five_events sample_world))
    as (out & -> & _ & _ & _ & Hall & _); [lia |].
  simpl. rewrite Hall; [by vm_compute |].
  assert (Hstored : length (logs (run five_events sample_world)) = 5) by (by vm_compute).
  rewrite Hstored. lia.
Defined.

(** X9. With a negative limit [-k], [getRecentLogs] computes [slice(k)]: the
    stored entries without the [k] oldest ones (none when [k] reaches the
    stored count). *)
Theorem getRecentLogs_negative_limit (k : nat) (w : World) :
  0 < k →
  getRecentLogs (Some (- Z.of_nat k)%Z) w = (Normal (drop k (logs w)), w) ∧
  length (drop k (logs w)) = length (logs w) - k.
Proof.
  intros Hk. split; [| apply length_drop].
  rewrite getRecentLogs_eq. simpl default. unfold JS.slice_from.
  destruct (Z.ltb_spec (- - Z.of_nat k) 0); [lia |].
  destruct (decide (k ≤ length (logs w))).
  - do 2 f_equal. f_equal. lia.
  - rewrite !drop_ge by lia. done.
Qed.

Lemma getRecentLogs_negative_limit_witness :
  fmap (M := Completion) (fmap (M := list) event)
    (getRecentLogs (Some (-2)%Z) (run five_events sample_world)).1
  = Normal ["C"; "D"; "E"].
Proof.
  destruct (getRecentLogs_negative_limit 2 (run five_events sample_world)) as [Hrun _];
    [lia |].
  change (- Z.of_nat 2)%Z with (-2)%Z in Hrun. rewrite Hrun. by vm_compute.
Defined.

(** X10. Whatever the limit (also 0, negative or absent), [getLogsByLevel] ends
    normally, leaves the log as it was, and gives entries of the level asked
    for only, taken from the stored entries without reordering. *)
Theorem getLogsByLevel_every_limit (lvl : Level) (limit : option Z) (w : World) :
  ∃ out,
    getLogsByLevel lvl limit w = (Normal out, w) ∧
    Forall (λ e, level e = lvl) out ∧
    out `sublist_of` logs w ∧
    length out ≤ count_of lvl (logs w).
Proof.
  eexists. split; [apply getLogsByLevel_eq |].
  assert (Hsuffix := slice_from_suffix (- default 50%Z limit)
                       (filter (λ e, level e = lvl) (logs w))).
  split_and!.
  - eapply getLogsByLevel_only_level. apply getLogsByLevel_eq.
  - etrans; [apply sublist_drop | apply sublist_filter].
  - unfold count_of. by apply suffix_length.
Qed.

(** X11. With a limit of at least one [getLogsByLevel] gives the last [limit]
    stored entries of the level: [min(limit, count)] of them. *)
Theorem getLogsByLevel_last_matching (lvl : Level) (n : Z) (w : World) :
  (0 < n)%Z →
  ∃ out,
    getLogsByLevel lvl (Some n) w = (Normal out, w) ∧
    out = last_n (Z.to_nat n) (filter (λ e, level e = lvl) (logs w)) ∧
    length out = Z.to_nat n `min` count_of lvl (logs w).
Proof.
  intros Hn. eexists. split; [by apply getLogsByLevel_positive |].
  split; [done |]. rewrite length_last_n. unfold count_of. lia.
Qed.

Lemma getLogsByLevel_last_matching_witness :
  fmap (M := Completion) (fmap (M := list) event)
    (getLogsByLevel WARN (Some 1%Z) (run five_events sample_world)).1 = Normal ["D"].
Proof.
  destruct (getLogsByLevel_last_matching WARN 1 (run five_events sample_world))
    as (out & -> & -> & _); [lia |].
  by vm_compute.
Defined.

(** X12. [getCriticalEvents()] gives all stored CRITICAL entries in stored order;
    it is what [getLogsByLevel('CRITICAL', n)] gives for every [n] from the
    number of CRITICAL entries on (and at least one). *)
Theorem getCriticalEvents_as_getLogsByLevel (n : Z) (w : World) :
  (0 < n)%Z → (Z.of_nat (count_of CRITICAL (logs w)) ≤ n)%Z →
  getLogsByLevel CRITICAL (Some n) w = getCriticalEvents w ∧
  ∃ out, getCriticalEvents w = (Normal out, w) ∧
         out = filter (λ e, level e = CRITICAL) (logs w) ∧
         length out = count_of CRITICAL (logs w).
Proof.
  intros Hn Hcount. rewrite getCriticalEvents_eq. split; [| by eexists].
  rewrite getLogsByLevel_positive by done.
  rewrite last_n_all; [done |]. unfold count_of in Hcount. lia.
Qed.

Lemma getCriticalEvents_as_getLogsByLevel_witness :
  getLogsByLevel CRITICAL (Some 1%Z) (run five_events sample_world) =
  getCriticalEvents (run five_events sample_world).
Proof.
  apply (getCriticalEvents_as_getLogsByLevel 1 (run five_events sample_world)); [lia |].
  assert (Hcount : count_of CRITICAL (logs (run five_events sample_world)) = 1)
    by (by vm_compute).
  rewrite Hcount. lia.
Defined.

(** ** The report, level by level *)

Lemma foldl_count_level_exact l lvl : ∀ acc,
  foldl count_level acc l !! level_name lvl =
  match count_of lvl l with
  | 0 => acc !! level_name lvl
  | S _ => Some (default 0 (acc !! level_name lvl) + count_of lvl l)
  end.
Proof.
  unfold count_of.
  induction l as [| e l IH]; intros acc; [done |]. simpl foldl. rewrite IH.
  unfold count_level.
  destruct (decide (level e = lvl)) as [Heq | Hne].
  - rewrite (filter_cons_True (λ x, level x = lvl)) by done.
    rewrite Heq, lookup_insert_eq. simpl.
    destruct (length (filter _ l)); f_equal; lia.
  - rewrite (filter_cons_False (λ e, level e = lvl)) by done.
    rewrite lookup_insert_ne; [done |].
    intros Heq. by apply level_name_inj in Heq.
Qed.

Lemma foldl_count_level_keys l : ∀ acc key,
  is_Some (foldl count_level acc l !! key) →
  is_Some (acc !! key) ∨ ∃ lvl, key = level_name lvl.
Proof.
  induction l as [| e l IH]; intros acc key Hkey; [by left |].
  simpl in Hkey. apply IH in Hkey as [Hkey | ?]; [| by right].
  unfold count_level in Hkey.
  destruct (decide (level_name (level e) = key)) as [<- | Hne].
  - right. by eexists.
  - left. by rewrite lookup_insert_ne in Hkey.
Qed.

(** X13. The summary of the report has, under each level, the number of stored
    entries of that level; a level without stored entries has no key (it is
    not reported as 0), and there is no key that is not a level. *)
Theorem report_summary_per_level (w : World) (lvl : Level) :
  ∃ r w',
    generateSecurityReport w = (Normal r, w') ∧
    summary r !! level_name lvl =
      (if decide (count_of lvl (logs w) = 0) then None
       else Some (count_of lvl (logs w))) ∧
    ∀ key, is_Some (summary r !! key) → ∃ l, key = level_name l.
Proof.
  destruct (generateSecurityReport_spec w) as (r & k & Hr & Hsummary & _).
  exists r, (with_reads (reads w + k) w). rewrite Hsummary. split_and!; [done | |].
  - rewrite foldl_count_level_exact. rewrite lookup_empty.
    by destruct (count_of lvl (logs w)).
  - intros key Hkey. apply foldl_count_level_keys in Hkey as [Hkey | ?]; [| done].
    rewrite lookup_empty in Hkey. by destruct Hkey.
Qed.

Lemma report_summary_per_level_witness :
  ∃ r w',
    generateSecurityReport (run five_events sample_world) = (Normal r, w') ∧
    summary r !! "WARN" = Some 2 ∧ summary r !! "ERROR" = None.
Proof.
  destruct (report_summary_per_level (run five_events sample_world) WARN)
    as (r & w' & Hr & Hwarn & Hkeys).
  destruct (report_summary_per_level (run five_events sample_world) ERROR)
    as (r' & w'' & Hr' & Herror & _).
  rewrite Hr in Hr'. injection Hr' as <- <-.
  exists r, w'. simpl level_name in Hwarn, Herror.
  rewrite Hwarn, Herror. split_and!; [done | by vm_compute | by vm_compute].
Defined.

(** X14. The parts of the report agree: [criticalEvents] has as many entries as
    the summary counts under CRITICAL, [recentEvents] has at most ten entries
    and they are the tail of the log, and the summary counts at least as many
    entries as [recentEvents] shows. *)
Theorem report_parts_agree (w : World) :
  ∃ r w',
    generateSecurityReport w = (Normal r, w') ∧
    length (criticalEvents r) = default 0 (summary r !! "CRITICAL") ∧
    length (recentEvents r) = 10 `min` length (logs w) ∧
    recentEvents r `suffix_of` logs w ∧
    length (recentEvents r) ≤ summary_total (summary r) ∧
    filter (λ e, level e = CRITICAL) (recentEvents r) `suffix_of` criticalEvents r.
Proof.
  destruct (generateSecurityReport_spec w) as (r & k & Hr & Hsummary & Hrecent & Hcritical).
  exists r, (with_reads (reads w + k) w).
  rewrite Hsummary, Hrecent, Hcritical.
  split_and!; [done | | | apply last_n_suffix | |].
  - change "CRITICAL" with (level_name CRITICAL).
    rewrite foldl_count_level_lookup. by rewrite lookup_empty.
  - rewrite length_last_n. lia.
  - rewrite foldl_count_level_total, length_last_n. lia.
  - destruct (last_n_suffix 10 (logs w)) as [older Holder].
    exists (filter (λ e, level e = CRITICAL) older).
    rewrite Holder at 1. apply filter_app.
Qed.

(** X15. The queries and the report only read the log: none of them changes the
    stored entries, the console or the build constants, and the three array
    queries do not read the clock either. *)
Theorem queries_only_read (w : World) (lvl : Level) (limit : option Z) :
  (getRecentLogs limit w).2 = w ∧
  (getLogsByLevel lvl limit w).2 = w ∧
  (getCriticalEvents w).2 = w ∧
  logs (generateSecurityReport w).2 = logs w ∧
  console (generateSecurityReport w).2 = console w ∧
  globals (generateSecurityReport w).2 = globals w ∧
  clock (generateSecurityReport w).2 = clock w.
Proof.
  destruct (generateSecurityReport_spec w) as (r & k & -> & _).
  by split_and!.
Qed.

(** X16. On a log that is not empty the report does not read the clock: the world
    after it is the world before, and both bounds of the time range are
    stored timestamps. *)
Theorem report_of_nonempty_log_is_pure (w : World) :
  timestamps_set w → logs w ≠ [] →
  ∃ r oldest newest,
    generateSecurityReport w = (Normal r, w) ∧
    head (logs w) = Some oldest ∧ last (logs w) = Some newest ∧
    timeRange r = {| from := timestamp oldest; to := timestamp newest |}.
Proof.
  unfold timestamps_set. intros Hts Hstored.
  destruct (logs w) as [| oldest rest] eqn:Hlogs; [done |].
  assert (Hlast : ∃ newest, last (oldest :: rest) = Some newest ∧ timestamp newest ≠ "").
  { destruct (last (oldest :: rest)) as [newest |] eqn:Hnewest.
    - exists newest. split; [done |].
      apply last_Some_elem_of in Hnewest. by eapply Forall_forall in Hts.
    - by apply last_None in Hnewest. }
  destruct Hlast as (newest & Hnewest & Hstamp).
  apply Forall_cons in Hts as [Holdest _].
  unfold generateSecurityReport, getRecentLogs, getCriticalEvents. eff_unfold. simpl.
  rewrite Hlogs, Hnewest. simpl.
  rewrite !timestamp_or_now_stored by done.
  eexists _, oldest, newest. by split_and!.
Qed.

Lemma report_of_nonempty_log_is_pure_witness :
  let w := run five_events sample_world in
  ∃ r, generateSecurityReport w = (Normal r, w) ∧
       timeRange r = {| from := "2026-01-20T00:00:00.000Z";
                        to := "2026-01-20T00:00:01.000Z" |}.
Proof.
  intros w.
  destruct (report_of_nonempty_log_is_pure w) as (r & oldest & newest & Hr & Ho & Hn & Hrange).
  { apply (bool_decide_unpack _). by vm_compute. }
  { intros Hempty. apply (f_equal length) in Hempty. revert Hempty. by vm_compute. }
  exists r. split; [done |]. rewrite Hrange.
  assert (Hfrom : timestamp <$> head (logs w) = Some "2026-01-20T00:00:00.000Z")
    by (by vm_compute).
  assert (Hto : timestamp <$> last (logs w) = Some "2026-01-20T00:00:01.000Z")
    by (by vm_compute).
  rewrite Ho in Hfrom. rewrite Hn in Hto. simpl in Hfrom, Hto.
  by injection Hfrom as ->; injection Hto as ->.
Defined.

(* ===================================================================== *)
(** * Further properties of the middleware                                *)
(* ===================================================================== *)

(** The response [onRequest] builds when the handler threw. *)
Lemma onRequest_failure_eq context next w error w1 :
  next (onRequest_enter context w).2 = (Throw error, w1) →
  onRequest context next w =
  (Normal {| status := 500;
             body := Text "Internal Server Error";
             headers := [("content-type", "text/plain");
                         ("x-error-id", "LogsGonstr-" +:+ pretty (clock w1 (S (reads w1))));
                         ("x-content-type-options", "nosniff");
                         ("x-frame-options", "DENY")];
             headers_guard := guard_response |},
   with_console
     (console w1 ++
      [mkConsoleCall console_error
         ("[LogsGonstr-Security-ERROR] " +:+ JS.toISOString (clock w1 (reads w1)) +:+
          " - Error: " +:+ error +:+ " - IP: " +:+
          JS.or_str (Some (clientAddress context)) "unknown" +:+
          " - Path: " +:+ pathname (url context)) []])
     (with_reads (S (S (reads w1))) w1)).
Proof.
  intros Hnext. unfold onRequest.
  destruct (onRequest_enter_spec context w) as (line0 & Henter).
  rewrite Henter in Hnext. simpl in Hnext.
  unfold mbind at 1. unfold Eff_bind at 1. rewrite Henter.
  unfold try_catch. unfold mbind at 1. unfold Eff_bind at 1. rewrite Hnext.
  unfold onRequest_catch. eff_unfold. simpl. reflexivity.
Qed.

Lemma onRequest_enter_line context w :
  ∃ line,
    onRequest_enter context w =
    (Normal (clock w (reads w), JS.or_str (Some (clientAddress context)) "unknown"),
     with_console (console w ++ [line]) (with_reads (S (S (reads w))) w)) ∧
    console_method line = console_log.
Proof. unfold onRequest_enter. eff_unfold. simpl. eexists. split; reflexivity. Qed.

(** X17. [onRequest] turns every outcome of the downstream handler into a
    response and ends normally: the handler's response (same status and body)
    when it returned one whose headers can be changed, and the 500 response
    both when it threw and when it returned a response whose headers cannot be
    changed. *)
Theorem onRequest_never_throws (context : APIContext) (next : Eff Response) (w : World) :
  ∃ response w',
    onRequest context next w = (Normal response, w') ∧
    match (next (onRequest_enter context w).2).1 with
    | Normal downstream =>
        match headers_guard downstream with
        | guard_response =>
            status response = status downstream ∧ body response = body downstream
        | guard_immutable =>
            status response = 500%Z ∧ body response = Text "Internal Server Error"
        end
    | Throw _ =>
        status response = 500%Z ∧ body response = Text "Internal Server Error"
    end.
Proof.
  destruct (next (onRequest_enter context w).2) as [[downstream | error] w1] eqn:Hnext.
  - destruct (headers_guard downstream) eqn:Hguard.
    + destruct (onRequest_success_eq _ _ _ _ _ Hnext Hguard) as (line & -> & _).
      eexists _, _. split; [reflexivity |]. simpl. by rewrite Hguard.
    + rewrite (onRequest_immutable_eq _ _ _ _ _ Hnext Hguard).
      eexists _, _. split; [reflexivity |]. simpl. by rewrite Hguard.
  - rewrite (onRequest_failure_eq _ _ _ _ _ Hnext). by eexists _, _.
Qed.

(** X18. The interceptor itself never records into the Event Log and writes
    exactly two console lines: one with [console.log] before the handler runs,
    and one after it, with [console.log] when the handler returned a response
    whose headers can be changed, and with [console.error] when it threw or
    returned a response whose headers cannot be changed.  The stored entries
    after [onRequest] are those the handler left. *)
Theorem onRequest_leaves_event_log (context : APIContext) (next : Eff Response) (w : World) :
  let entered := (onRequest_enter context w).2 in
  let handled := (next entered).2 in
  let returned := (onRequest context next w).2 in
  logs entered = logs w ∧
  logs returned = logs handled ∧
  globals returned = globals handled ∧
  ∃ before after,
    console entered = console w ++ [before] ∧
    console returned = console handled ++ [after] ∧
    console_method before = console_log ∧
    console_method after =
      match (next entered).1 with
      | Normal downstream =>
          match headers_guard downstream with
          | guard_response => console_log
          | guard_immutable => console_error
          end
      | Throw _ => console_error
      end.
Proof.
  intros entered handled returned. subst entered handled returned.
  destruct (onRequest_enter_line context w) as (before & Henter & Hbefore).
  destruct (next (onRequest_enter context w).2) as [[downstream | error] w1] eqn:Hnext.
  - destruct (headers_guard downstream) eqn:Hguard.
    + destruct (onRequest_success_eq _ _ _ _ _ Hnext Hguard) as (after & -> & Hafter).
      rewrite Henter. simpl. rewrite Hguard. split_and!; [done | done | done |].
      by exists before, after.
    + rewrite (onRequest_immutable_eq _ _ _ _ _ Hnext Hguard). rewrite Henter. simpl.
      rewrite Hguard. split_and!; [done | done | done |]. by eexists before, _.
  - rewrite (onRequest_failure_eq _ _ _ _ _ Hnext). rewrite Henter. simpl.
    split_and!; [done | done | done |]. by eexists before, _.
Qed.

Lemma decorated_names_other name :
  Headers.lower name ∉ decorated_names →
  Forall (λ set_name, Headers.lower set_name ≠ Headers.lower name)
    ["Content-Security-Policy"; "X-Content-Type-Options"; "X-Frame-Options";
     "X-XSS-Protection"; "Referrer-Policy"; "Permissions-Policy";
     "X-Powered-By-LogsGonstr"; "X-Security-Scan"].
Proof.
  unfold decorated_names. intros Hother.
  apply Forall_forall. intros set_name Hin Heq.
  apply Hother. rewrite <- Heq. by apply list_elem_of_fmap_2.
Qed.

(** X19. On the success path (the handler returned a response whose headers
    can be changed) every header of the handler's response that is not one of
    the eight the interceptor sets is passed on unchanged (names are compared
    without case). *)
Theorem onRequest_keeps_other_headers
    (context : APIContext) (next : Eff Response) (w : World)
    (response : Response) (w1 : World) (name : string) :
  next (onRequest_enter context w).2 = (Normal response, w1) →
  headers_guard response = guard_response →
  Headers.lower name ∉ decorated_names →
  ∃ decorated w',
    onRequest context next w = (Normal decorated, w') ∧
    Headers.get name (headers decorated) = Headers.get name (headers response).
Proof.
  intros Hnext Hguard Hother.
  destruct (onRequest_success_eq _ _ _ _ _ Hnext Hguard) as (line & -> & _).
  eexists _, _. split; [reflexivity |]. simpl.
  apply decorated_names_other in Hother.
  repeat (apply Forall_cons in Hother as [? Hother]).
  by rewrite !HeadersFacts.get_set_ne by done.
Qed.

Lemma onRequest_keeps_other_headers_witness :
  ∃ decorated w',
    onRequest sample_context
      (mret (mkResponse 200 (Text "ok")
               [("set-cookie", "sid=1"); ("x-frame-options", "ALLOW")] guard_response))
      sample_world = (Normal decorated, w') ∧
    Headers.get "Set-Cookie" (headers decorated) = Some "sid=1".
Proof.
  destruct (onRequest_keeps_other_headers sample_context
              (mret (mkResponse 200 (Text "ok")
                       [("set-cookie", "sid=1"); ("x-frame-options", "ALLOW")] guard_response))
              sample_world
              (mkResponse 200 (Text "ok")
                 [("set-cookie", "sid=1"); ("x-frame-options", "ALLOW")] guard_response)
              (onRequest_enter sample_context sample_world).2 "Set-Cookie")
    as (decorated & w' & Hrun & Hget).
  { reflexivity. }
  { reflexivity. }
  { apply (bool_decide_unpack _). by vm_compute. }
  exists decorated, w'. split; [done |]. rewrite Hget. by vm_compute.
Defined.

(** X20. On the success path (the handler returned a response whose headers
    can be changed) each of the eight headers is on the decorated response
    exactly once, also when the handler's response carried it already, even
    several times: the interceptor's value replaces the handler's. *)
Theorem onRequest_sets_each_header_once
    (context : APIContext) (next : Eff Response) (w : World)
    (response : Response) (w1 : World) :
  next (onRequest_enter context w).2 = (Normal response, w1) →
  headers_guard response = guard_response →
  ∃ decorated w',
    onRequest context next w = (Normal decorated, w') ∧
    Forall (λ name, length (filter (Headers.named name) (headers decorated)) = 1)
      ["Content-Security-Policy"; "X-Content-Type-Options"; "X-Frame-Options";
       "X-XSS-Protection"; "Referrer-Policy"; "Permissions-Policy";
       "X-Powered-By-LogsGonstr"; "X-Security-Scan"].
Proof.
  intros Hnext Hguard.
  destruct (onRequest_success_eq _ _ _ _ _ Hnext Hguard) as (line & -> & _).
  eexists _, _. split; [reflexivity |]. simpl.
  repeat constructor;
    repeat (rewrite HeadersFacts.filter_named_set_ne by (by vm_compute));
    by rewrite HeadersFacts.filter_named_set_eq.
Qed.

Lemma onRequest_sets_each_header_once_witness :
  ∃ decorated w',
    onRequest sample_context
      (mret (mkResponse 200 (Text "ok")
               [("x-frame-options", "ALLOW"); ("x-frame-options", "SAMEORIGIN")]
               guard_response))
      sample_world = (Normal decorated, w') ∧
    filter (Headers.named "X-Frame-Options") (headers decorated) =
      [("x-frame-options", "DENY")].
Proof.
  destruct (onRequest_sets_each_header_once sample_context
              (mret (mkResponse 200 (Text "ok")
                       [("x-frame-options", "ALLOW"); ("x-frame-options", "SAMEORIGIN")]
                       guard_response))
              sample_world
              (mkResponse 200 (Text "ok")
                 [("x-frame-options", "ALLOW"); ("x-frame-options", "SAMEORIGIN")]
                 guard_response)
              (onRequest_enter sample_context sample_world).2)
    as (decorated & w' & Hrun & Honce).
  { reflexivity. }
  { reflexivity. }
  exists decorated, w'. split; [done |].
  assert (Hfst : (onRequest sample_context
                    (mret (mkResponse 200 (Text "ok")
                             [("x-frame-options", "ALLOW"); ("x-frame-options", "SAMEORIGIN")]
                             guard_response))
                    sample_world).1 = Normal decorated) by (by rewrite Hrun).
  vm_compute in Hfst. injection Hfst as <-. by vm_compute.
Defined.

(** X21. The 500 response tells nothing of what was thrown: two failures whose
    error identifiers come from the same clock reading give the same response,
    whatever the errors were.  The error text goes to [console.error] only. *)
Theorem onRequest_failure_hides_error
    (context : APIContext) (next1 next2 : Eff Response) (w : World)
    (error1 error2 : string) (w1 w2 : World) :
  next1 (onRequest_enter context w).2 = (Throw error1, w1) →
  next2 (onRequest_enter context w).2 = (Throw error2, w2) →
  clock w1 (S (reads w1)) = clock w2 (S (reads w2)) →
  (onRequest context next1 w).1 = (onRequest context next2 w).1 ∧
  ∃ line, last (console (onRequest context next1 w).2) = Some line ∧
          console_method line = console_error ∧
          message line =
            "[LogsGonstr-Security-ERROR] " +:+ JS.toISOString (clock w1 (reads w1)) +:+
            " - Error: " +:+ error1 +:+ " - IP: " +:+
            JS.or_str (Some (clientAddress context)) "unknown" +:+
            " - Path: " +:+ pathname (url context).
Proof.
  intros Hnext1 Hnext2 Hclock.
  rewrite (onRequest_failure_eq _ _ _ _ _ Hnext1), (onRequest_failure_eq _ _ _ _ _ Hnext2).
  simpl. rewrite Hclock. split; [done |].
  eexists. rewrite last_snoc. by split_and!.
Qed.

Lemma onRequest_failure_hides_error_witness :
  (onRequest sample_context (throw "TypeError: secret is undefined") sample_world).1 =
  (onRequest sample_context (throw "Error: ECONNREFUSED 10.0.0.5:5432") sample_world).1.
Proof.
  apply (onRequest_failure_hides_error sample_context
           (throw "TypeError: secret is undefined")
           (throw "Error: ECONNREFUSED 10.0.0.5:5432") sample_world
           "TypeError: secret is undefined" "Error: ECONNREFUSED 10.0.0.5:5432"
           (onRequest_enter sample_context sample_world).2
           (onRequest_enter sample_context sample_world).2); reflexivity.
Defined.

(* ===================================================================== *)
(** * Further properties of the status endpoint                           *)
(* ===================================================================== *)

(** Everything [log] stores and writes for one call. *)
Lemma log_full lvl ev d r w :
  ∃ e w',
    log lvl ev d r w = (Normal tt, w') ∧
    logs w' = push_evict maxLogs (logs w) e ∧
    last (logs w') = Some e ∧
    level e = lvl ∧ event e = ev ∧
    timestamp e = JS.toISOString (clock w (reads w)) ∧
    details e =
      <["buildTime" := JS.Str (match JS.truthy (Some (__BUILD_TIME__ (globals w))) with
                               | Some s => s
                               | None => JS.toISOString (clock w (S (reads w)))
                               end)]>
        (<["buildVersion" := JS.Str (JS.or_str (Some (__VERSION__ (globals w))) "1.0.0-LogsGonstr")]>
           (default ∅ d)) ∧
    ip e = extractIP r ∧
    endpoint e = (λ q, pathname (request_url q)) <$> r.
Proof.
  destruct (new_logEntry_spec lvl ev d r w)
    as (e & k & He & Hts & Hlvl & Hev & Hdetails & Hip & Hendpoint).
  destruct (log_spec _ _ _ _ _ _ _ He) as (w' & Hlog & Hlogs & _).
  exists e, w'. simpl in Hlogs.
  split_and!; try done.
  rewrite Hlogs. apply last_push_evict, maxLogs_pos.
Qed.

(** [log] reads of the request only its headers and the path of its URL. *)
Lemma log_request_irrelevant lvl ev d r1 r2 w :
  request_headers r1 = request_headers r2 →
  pathname (request_url r1) = pathname (request_url r2) →
  log lvl ev d (Some r1) w = log lvl ev d (Some r2) w.
Proof.
  intros Hheaders Hpath.
  assert (Hentry : new_logEntry lvl ev d (Some r1) = new_logEntry lvl ev d (Some r2)).
  { unfold new_logEntry, extractIP. simpl. by rewrite Hheaders, Hpath. }
  unfold log. by rewrite Hentry.
Qed.

Lemma GET_unauthorized_eq context w :
  presented_token context ≠ Some ADMIN_TOKEN →
  GET context w =
  (Normal {| status := 401;
             body := Text "Unauthorized";
             headers := [("content-type", "text/plain");
                         ("x-security-alert", "Invalid Token")];
             headers_guard := guard_response |},
   (log WARN SECURITY_EVENTS.SUSPICIOUS_ACCESS
      (Some (<["endpoint" := JS.Str "/api/security-status"]>
               (<["ip" := JS.Str (clientAddress context)]>
                  (<["reason" := JS.Str "Invalid admin token attempt"]> ∅))))
      (Some (request context)) w).2).
Proof.
  intros Hwrong. unfold GET. fold (presented_token context).
  destruct (decide (presented_token context ≠ Some ADMIN_TOKEN)); [| done].
  set (d := Some _).
  destruct (log_full WARN SECURITY_EVENTS.SUSPICIOUS_ACCESS d (Some (request context)) w)
    as (e & w' & Hlog & _).
  unfold mbind at 1. unfold Eff_bind at 1. rewrite Hlog. reflexivity.
Qed.

(** X22. A wrong token leaves no trace of its value: two requests that differ only
    in their query string, both without the right token, get the same
    response and leave the same world (same stored entry, same console
    line); a missing token is treated like a wrong one. *)
Theorem GET_wrong_token_not_recorded (context1 context2 : APIContext) (w : World) :
  presented_token context1 ≠ Some ADMIN_TOKEN →
  presented_token context2 ≠ Some ADMIN_TOKEN →
  request_headers (request context1) = request_headers (request context2) →
  pathname (request_url (request context1)) = pathname (request_url (request context2)) →
  clientAddress context1 = clientAddress context2 →
  GET context1 w = GET context2 w.
Proof.
  intros Hwrong1 Hwrong2 Hheaders Hpath Haddress.
  rewrite !GET_unauthorized_eq by done.
  rewrite Haddress.
  by rewrite (log_request_irrelevant _ _ _ (request context1) (request context2)).
Qed.

Lemma GET_wrong_token_not_recorded_witness :
  GET (status_context [("token", "LogsGonstr-Admin-2025")]) sample_world =
  GET (status_context []) sample_world.
Proof.
  apply GET_wrong_token_not_recorded; [by vm_compute | by vm_compute | done ..].
Defined.

(** X23. What the endpoint records of a refused request: a WARN entry
    SUSPICIOUS_ACCESS whose details hold the reason, the endpoint name and,
    under [ip], the client address of the connection, while the field [ip] of
    the entry is what [extractIP] reads from the forwarding headers, and
    [endpoint] is the path of the request. *)
Theorem GET_refused_entry (context : APIContext) (w : World) :
  presented_token context ≠ Some ADMIN_TOKEN →
  ∃ e response w',
    GET context w = (Normal response, w') ∧
    last (logs w') = Some e ∧
    level e = WARN ∧ event e = SECURITY_EVENTS.SUSPICIOUS_ACCESS ∧
    details e !! "reason" = Some (JS.Str "Invalid admin token attempt") ∧
    details e !! "ip" = Some (JS.Str (clientAddress context)) ∧
    details e !! "endpoint" = Some (JS.Str "/api/security-status") ∧
    ip e = extractIP (Some (request context)) ∧
    endpoint e = Some (pathname (request_url (request context))) ∧
    logs w' = push_evict maxLogs (logs w) e.
Proof.
  intros Hwrong. rewrite GET_unauthorized_eq by done.
  set (d := Some _).
  destruct (log_full WARN SECURITY_EVENTS.SUSPICIOUS_ACCESS d (Some (request context)) w)
    as (e & w' & Hlog & Hpush & Hlast & Hlvl & Hev & _ & Hdetails & Hip & Hendpoint).
  rewrite Hlog. simpl. eexists e, _, w'.
  split_and!; try done.
  all: rewrite Hdetails; subst d; by simplify_map_eq.
Qed.

Lemma GET_refused_entry_witness :
  ∃ e response w',
    GET (mkAPIContext
           (mkRequest "GET" (mkURL "/api/security-status" [("token", "guess")])
              [("x-forwarded-for", "198.51.100.4, 10.0.0.2")])
           (mkURL "/api/security-status" [("token", "guess")]) "10.0.0.2")
        sample_world = (Normal response, w') ∧
    last (logs w') = Some e ∧
    details e !! "ip" = Some (JS.Str "10.0.0.2") ∧
    ip e = Some "198.51.100.4".
Proof.
  destruct (GET_refused_entry
              (mkAPIContext
                 (mkRequest "GET" (mkURL "/api/security-status" [("token", "guess")])
                    [("x-forwarded-for", "198.51.100.4, 10.0.0.2")])
                 (mkURL "/api/security-status" [("token", "guess")]) "10.0.0.2")
              sample_world)
    as (e & response & w' & Hrun & Hlast & _ & _ & _ & Hip & _ & Hfield & _).
  { by vm_compute. }
  exists e, response, w'. split_and!; [done | done | done |].
  rewrite Hfield. by vm_compute.
Defined.

Lemma last_last_n {A} n (l : list A) x : 0 < n → last l = Some x → last (last_n n l) = Some x.
Proof.
  intros Hn [older ->]%last_Some. unfold last_n.
  rewrite length_app. simpl.
  rewrite drop_app_le by lia. apply last_snoc.
Qed.

Lemma generateSecurityReport_newest w r w' e :
  generateSecurityReport w = (Normal r, w') →
  last (logs w) = Some e → timestamp e ≠ "" →
  to (timeRange r) = timestamp e ∧ last (recentEvents r) = Some e.
Proof.
  intros Hr Hlast Hstamp.
  destruct (generateSecurityReport_spec w) as (r' & k & Hr' & _ & Hrecent & _).
  rewrite Hr in Hr'. injection Hr' as <- _.
  split; [| rewrite Hrecent; apply last_last_n; [lia | done]].
  revert Hr. unfold generateSecurityReport, getRecentLogs, getCriticalEvents.
  eff_unfold. simpl.
  destruct (timestamp_or_now_normal (head (logs w)) w) as (s1 & k1 & ->).
  rewrite Hlast, timestamp_or_now_stored by done. by intros [= <- _].
Qed.

Lemma GET_authorized_eq context w :
  presented_token context = Some ADMIN_TOKEN →
  ∃ e wl report k,
    log INFO SECURITY_EVENTS.SECURITY_SCAN
      (Some (<["admin" := JS.Bool true]>
               (<["action" := JS.Str "Security status requested"]> ∅)))
      (Some (request context)) w = (Normal tt, wl) ∧
    logs wl = push_evict maxLogs (logs w) e ∧
    last (logs wl) = Some e ∧ level e = INFO ∧
    event e = SECURITY_EVENTS.SECURITY_SCAN ∧
    timestamp e = JS.toISOString (clock w (reads w)) ∧
    generateSecurityReport wl = (Normal report, with_reads (reads wl + k) wl) ∧
    GET context w =
    (Normal {| status := 200;
               body := JSONText
                         (JS.Obj (Report_properties report ∪
                                  status_envelope
                                    (JS.toISOString (clock wl (reads wl + k)))));
               headers := [("content-type", "application/json");
                           ("x-security-level", "high");
                           ("x-logsgonstr-version", "1.0.0")];
               headers_guard := guard_response |},
     with_reads (S (reads wl + k)) wl).
Proof.
  intros Hright. unfold GET. fold (presented_token context).
  destruct (decide (presented_token context ≠ Some ADMIN_TOKEN)); [done |].
  set (d := Some _).
  destruct (log_full INFO SECURITY_EVENTS.SECURITY_SCAN d (Some (request context)) w)
    as (e & wl & Hlog & Hpush & Hlast & Hlvl & Hev & Hts & _).
  destruct (generateSecurityReport_spec wl) as (report & k & Hreport & _).
  exists e, wl, report, k.
  unfold mbind at 1. unfold Eff_bind at 1. rewrite Hlog.
  unfold mbind at 1. unfold Eff_bind at 1. rewrite Hreport.
  by split_and!.
Qed.

(** X24. The report the endpoint returns always shows the request that asked for
    it: the INFO entry SECURITY_SCAN recorded for the request is the last of
    [recentEvents], its timestamp is the upper bound of [timeRange], and the
    summary counts at least one INFO entry. *)
Theorem GET_report_includes_request (context : APIContext) (w : World) :
  presented_token context = Some ADMIN_TOKEN →
  ∃ e report response w' doc,
    GET context w = (Normal response, w') ∧
    body response = JSONText (JS.Obj doc) ∧
    doc !! "recentEvents" = Some (JS.Arr (SecurityLog_json <$> recentEvents report)) ∧
    doc !! "summary" = Some (JS.Obj ((λ n, JS.Num (Z.of_nat n)) <$> summary report)) ∧
    doc !! "timeRange" =
      Some (JS.Obj (<["to" := JS.Str (to (timeRange report))]>
                      (<["from" := JS.Str (from (timeRange report))]> ∅))) ∧
    last (logs w') = Some e ∧
    level e = INFO ∧ event e = SECURITY_EVENTS.SECURITY_SCAN ∧
    last (recentEvents report) = Some e ∧
    to (timeRange report) = timestamp e ∧
    1 ≤ default 0 (summary report !! "INFO").
Proof.
  intros Hright.
  destruct (GET_authorized_eq context w Hright)
    as (e & wl & report & k & Hlog & Hpush & Hlast & Hlvl & Hev & Hts & Hreport & ->).
  destruct (generateSecurityReport_newest wl report _ e Hreport Hlast) as [Hto Hrecent].
  { rewrite Hts. apply toISOString_nonempty. }
  eexists e, report, _, _, _. split; [reflexivity |]. simpl.
  split_and!; try done.
  destruct (generateSecurityReport_spec wl) as (r' & k' & Hr' & Hsummary & _).
  rewrite Hreport in Hr'. injection Hr' as <- _.
  rewrite Hsummary. change "INFO" with (level_name INFO).
  rewrite foldl_count_level_lookup, lookup_empty. simpl.
  apply last_Some in Hlast as [older Hstored]. rewrite Hstored, filter_app.
  rewrite (filter_cons_True (λ x, level x = INFO)) by done.
  rewrite length_app. simpl. lia.
Qed.

Lemma GET_report_includes_request_witness :
  ∃ e report response w' doc,
    GET (status_context [("token", "LogsGonstr-Admin-2026")])
      (run five_events sample_world) = (Normal response, w') ∧
    body response = JSONText (JS.Obj doc) ∧
    last (recentEvents report) = Some e ∧
    event e = "SECURITY_SCAN" ∧
    to (timeRange report) = "2026-01-20T00:00:01.250Z".
Proof.
  destruct (GET_report_includes_request (status_context [("token", "LogsGonstr-Admin-2026")])
              (run five_events sample_world))
    as (e & report & response & w' & doc & Hrun & Hbody & _ & _ & _ & Hlast & _ & Hev &
        Hrecent & Hto & _).
  { reflexivity. }
  exists e, report, response, w', doc. split_and!; [done | done | done | done |].
  rewrite Hto.
  assert (Hstamp : timestamp <$> last (logs (GET (status_context
                     [("token", "LogsGonstr-Admin-2026")])
                     (run five_events sample_world)).2) = Some "2026-01-20T00:00:01.250Z")
    by (by vm_compute).
  rewrite Hrun in Hstamp. simpl in Hstamp. rewrite Hlast in Hstamp.
  by injection Hstamp.
Defined.

(** X25. The JSON document of the 200 answer has exactly nine keys: the five of
    the status envelope and the four of the report; [timestamp] is the clock
    reading taken after the report was built. *)
Theorem GET_body_keys (context : APIContext) (w : World) :
  presented_token context = Some ADMIN_TOKEN →
  ∃ response w' doc,
    GET context w = (Normal response, w') ∧
    status response = 200%Z ∧
    body response = JSONText (JS.Obj doc) ∧
    dom doc = ({["status"; "timestamp"; "version"; "environment"; "security";
                 "summary"; "recentEvents"; "criticalEvents"; "timeRange"]} : gset string) ∧
    doc !! "security" =
      Some (JS.Obj (<["monitoring" := JS.Str "active"]>
                      (<["middleware" := JS.Str "active"]>
                         (<["headers" := JS.Str "secured"]>
                            (<["csp" := JS.Str "enabled"]> ∅))))) ∧
    ∃ k, doc !! "timestamp" = Some (JS.Str (JS.toISOString (clock w' k))) ∧
         reads w' = S k.
Proof.
  intros Hright.
  destruct (GET_authorized_eq context w Hright)
    as (e & wl & report & k & _ & _ & _ & _ & _ & _ & _ & ->).
  eexists _, _, _. split; [reflexivity |]. simpl.
  split_and!; [done | done | | |].
  - unfold Report_properties, status_envelope.
    rewrite dom_union_L, !dom_insert_L, !dom_empty_L. set_solver.
  - unfold Report_properties, status_envelope. by simplify_map_eq.
  - exists (reads wl + k). split; [| done].
    unfold Report_properties, status_envelope. by simplify_map_eq.
Qed.

Lemma GET_body_keys_witness :
  ∃ response w' doc,
    GET (status_context [("token", "LogsGonstr-Admin-2026")]) sample_world =
      (Normal response, w') ∧
    body response = JSONText (JS.Obj doc) ∧
    size (dom doc) = 9.
Proof.
  destruct (GET_body_keys (status_context [("token", "LogsGonstr-Admin-2026")]) sample_world)
    as (response & w' & doc & Hrun & _ & Hbody & Hdom & _).
  { reflexivity. }
  exists response, w', doc. split_and!; [done | done |].
  rewrite Hdom. by vm_compute.
Defined.

(** ** Refused requests fill the log *)

Lemma serve_cons context requests w :
  serve (context :: requests) w = serve requests (GET context w).2.
Proof. reflexivity. Qed.

Lemma GET_refused_push context w :
  presented_token context ≠ Some ADMIN_TOKEN →
  ∃ e, logs (GET context w).2 = push_evict maxLogs (logs w) e ∧
       level e = WARN ∧ event e = SECURITY_EVENTS.SUSPICIOUS_ACCESS.
Proof.
  intros Hwrong. rewrite GET_unauthorized_eq by done. set (d := Some _).
  destruct (log_full WARN SECURITY_EVENTS.SUSPICIOUS_ACCESS d (Some (request context)) w)
    as (e & w' & Hlog & Hpush & _ & Hlvl & Hev & _).
  exists e. rewrite Hlog. by simpl.
Qed.

Lemma serve_refused_history requests : ∀ w history,
  logs w = last_n maxLogs history →
  Forall (λ context, presented_token context ≠ Some ADMIN_TOKEN) requests →
  ∃ entries,
    length entries = length requests ∧
    Forall (λ e, level e = WARN ∧ event e = SECURITY_EVENTS.SUSPICIOUS_ACCESS) entries ∧
    logs (serve requests w) = last_n maxLogs (history ++ entries).
Proof.
  induction requests as [| context requests IH]; intros w history Hw Hwrong.
  - exists []. by rewrite app_nil_r.
  - apply Forall_cons in Hwrong as [Hfirst Hrest].
    destruct (GET_refused_push context w Hfirst) as (e & Hpush & Hlvl & Hev).
    destruct (IH (GET context w).2 (history ++ [e])) as (entries & Hlen & Hall & Hlogs).
    { rewrite Hpush, Hw. apply push_evict_last_n, maxLogs_pos. }
    { done. }
    exists (e :: entries). rewrite serve_cons, Hlogs, <- app_assoc.
    split_and!; [simpl; by rewrite Hlen | by constructor | done].
Qed.

(** X26. Refused requests are not limited, and each one takes a slot of the log:
    after 1000 or more requests without the right token the log holds nothing
    but their SUSPICIOUS_ACCESS warnings, every entry recorded before them
    having been evicted. *)
Theorem refused_requests_flush_log (requests : list APIContext) (w : World) :
  length (logs w) ≤ maxLogs →
  Forall (λ context, presented_token context ≠ Some ADMIN_TOKEN) requests →
  maxLogs ≤ length requests →
  length (logs (serve requests w)) = maxLogs ∧
  Forall (λ e, level e = WARN ∧ event e = SECURITY_EVENTS.SUSPICIOUS_ACCESS)
    (logs (serve requests w)).
Proof.
  intros Hbounded Hwrong Hmany.
  destruct (serve_refused_history requests w (logs w)) as (entries & Hlen & Hall & ->).
  { by rewrite last_n_all. }
  { done. }
  split.
  - rewrite length_last_n, length_app. lia.
  - unfold last_n. rewrite length_app.
    rewrite drop_app_ge by lia. by apply Forall_drop.
Qed.

Lemma refused_requests_flush_log_witness :
  Forall (λ e, level e = WARN ∧ event e = "SUSPICIOUS_ACCESS")
    (logs (serve (replicate 1000 (status_context [("token", "guess")]))
             (run five_events sample_world))).
Proof.
  apply (refused_requests_flush_log (replicate 1000 (status_context [("token", "guess")]))
           (run five_events sample_world)).
  - assert (Hstored : length (logs (run five_events sample_world)) = 5) by (by vm_compute).
    rewrite Hstored. unfold maxLogs. lia.
  - apply Forall_replicate. by vm_compute.
  - rewrite length_replicate. unfold maxLogs. lia.
Defined.

(* ===================================================================== *)
(** * The singleton                                                       *)
(* ===================================================================== *)

Lemma getInstances_built n : ∀ c ref,
  Singleton.instance c = Some ref →
  Singleton.getInstances n c = (replicate n ref, c).
Proof.
  induction n as [| n IH]; intros c ref Hc; [done |].
  simpl. unfold Singleton.getInstance. rewrite Hc. by rewrite (IH c ref Hc).
Qed.

(** X27. However many times [getInstance()] is called on the freshly declared
    class, every call returns the same object and the constructor has run
    once; and a call on a class that has its instance returns it without
    touching the entries it holds. *)
Theorem getInstance_single_object (n : nat) (c : Singleton.Class) :
  Singleton.getInstances (S n) Singleton.declared =
    (replicate (S n) 0,
     {| Singleton.objects := [[]]; Singleton.instance := Some 0 |}) ∧
  (Singleton.getInstance (Singleton.getInstance c).2 =
     ((Singleton.getInstance c).1, (Singleton.getInstance c).2)) ∧
  (is_Some (Singleton.instance c) → (Singleton.getInstance c).2 = c).
Proof.
  split_and!.
  - simpl. by rewrite (getInstances_built n _ 0).
  - unfold Singleton.getInstance. by destruct (Singleton.instance c) eqn:Hc; simpl; rewrite ?Hc.
  - intros [ref Hc]. unfold Singleton.getInstance. by rewrite Hc.
Qed.

Lemma getInstance_single_object_witness :
  Singleton.getInstances 3 Singleton.declared =
    ([0; 0; 0], {| Singleton.objects := [[]]; Singleton.instance := Some 0 |}) ∧
  (Singleton.getInstance
     {| Singleton.objects := [logs (run five_events sample_world)];
        Singleton.instance := Some 0 |}).2 =
    {| Singleton.objects := [logs (run five_events sample_world)];
       Singleton.instance := Some 0 |}.
Proof.
  split.
  - exact (proj1 (getInstance_single_object 2 Singleton.declared)).
  - apply (proj2 (proj2 (getInstance_single_object 0 _))). by eexists.
Defined.
